(** * isrcs-to-dab: the submission controller of [src/routes/+page.svelte]

    A shallow embedding of the page's script block: the parsing of the
    textarea into a cleaned list of ISRCs, and [handleSubmit] with the
    page state it assigns, the request it sends and the outcomes of the
    promises it awaits. *)

From Stdlib Require Import String Ascii.
From Stdlib Require Import List NArith Arith Bool Lia.
From Stdlib Require Import ZArith SpecFloat DecimalString.
From Equations Require Import Equations.
Import ListNotations.

Set Implicit Arguments.

(** ** JavaScript strings

    A JavaScript string is a sequence of UTF-16 code units.  The code
    units are kept as [N]; nothing below depends on their being below
    [2^16]. *)

Definition code_unit := N.
Definition jsstring := list code_unit.

(** A string literal of the source, for the ASCII literals it uses. *)
Definition lit (s : string) : jsstring :=
  map N_of_ascii (list_ascii_of_string s).

Definition TAB : code_unit := 0x09%N.
Definition LF : code_unit := 0x0A%N.
Definition CR : code_unit := 0x0D%N.
Definition SP : code_unit := 0x20%N.

(** [str.substring(p, q)] for [p <= q <= str.length]. *)
Definition substring (str : jsstring) (p q : nat) : jsstring :=
  firstn (q - p) (skipn p str).

(** *** [String.prototype.trim]

    ECMAScript strips the code points of [WhiteSpace] and of
    [LineTerminator] from both ends; all of them are single code units. *)

Definition is_white_space (c : code_unit) : bool :=
  (c =? 0x09)%N || (c =? 0x0B)%N || (c =? 0x0C)%N || (c =? 0x20)%N
  || (c =? 0xA0)%N || (c =? 0x1680)%N
  || ((0x2000 <=? c)%N && (c <=? 0x200A)%N)
  || (c =? 0x202F)%N || (c =? 0x205F)%N || (c =? 0x3000)%N
  || (c =? 0xFEFF)%N.

Definition is_line_terminator (c : code_unit) : bool :=
  (c =? 0x0A)%N || (c =? 0x0D)%N || (c =? 0x2028)%N || (c =? 0x2029)%N.

Definition is_trimmed_char (c : code_unit) : bool :=
  is_white_space c || is_line_terminator c.

Fixpoint trim_start (s : jsstring) : jsstring :=
  match s with
  | [] => []
  | c :: s' => if is_trimmed_char c then trim_start s' else s
  end.

Definition trim_end (s : jsstring) : jsstring :=
  rev (trim_start (rev s)).

Definition trim (s : jsstring) : jsstring :=
  trim_end (trim_start s).

(** *** Regular expressions

    The fragment of the pattern language that [/\r?\n/] is written in,
    with the backtracking matcher of ECMAScript: a greedy optional atom
    is tried first with the atom and then without it.  The matcher takes
    the rest of the subject and a continuation, and returns what is left
    of the subject after the whole match. *)

Inductive regex : Type :=
| Chr (c : code_unit)
| Opt (r : regex)
| Cat (r1 r2 : regex).

Fixpoint rmatch (r : regex) (s : jsstring)
    (k : jsstring -> option jsstring) : option jsstring :=
  match r with
  | Chr c =>
      match s with
      | x :: s' => if (x =? c)%N then k s' else None
      | [] => None
      end
  | Opt r1 =>
      match rmatch r1 s k with
      | Some rest => Some rest
      | None => k s
      end
  | Cat r1 r2 => rmatch r1 s (fun s' => rmatch r2 s' k)
  end.

(** The splitter of line 20, [/\r?\n/]. *)
Definition newline_re : regex := Cat (Opt (Chr CR)) (Chr LF).

(** [RegExpExec] of a sticky copy of the splitter with [lastIndex = q]:
    the match has to start at [q]; the result is the end index [e] of
    the match. *)
Definition regexp_exec_sticky (r : regex) (str : jsstring) (q : nat)
    : option nat :=
  match rmatch r (skipn q str) Some with
  | Some rest => Some (length str - length rest)
  | None => None
  end.

Lemma rmatch_newline_cases (s : jsstring) :
  rmatch newline_re s Some =
  match s with
  | c :: s1 =>
      if (c =? LF)%N then Some s1
      else if (c =? CR)%N then
        match s1 with
        | d :: s2 => if (d =? LF)%N then Some s2 else None
        | [] => None
        end
      else None
  | [] => None
  end.
Proof.
  destruct s as [|c s1]; [reflexivity|].
  cbn [newline_re rmatch].
  destruct (N.eqb_spec c LF) as [->|Hlf].
  - cbn. destruct s1 as [|d s2]; [reflexivity|].
    destruct (d =? LF)%N; reflexivity.
  - destruct (N.eqb_spec c CR) as [->|Hcr]; [|reflexivity].
    destruct s1 as [|d s2]; [reflexivity|].
    destruct (d =? LF)%N; reflexivity.
Qed.

(** A match of the splitter is never empty: the end index is past [q]. *)
Lemma exec_newline_progress (str : jsstring) (q e : nat) :
  regexp_exec_sticky newline_re str q = Some e -> q < e <= length str.
Proof.
  unfold regexp_exec_sticky. rewrite rmatch_newline_cases.
  pose proof (length_skipn q str) as Hlen.
  destruct (skipn q str) as [|c s1] eqn:Hs; [discriminate|].
  cbn [length] in Hlen.
  destruct (c =? LF)%N.
  - intros [= <-]. lia.
  - destruct (c =? CR)%N; [|discriminate].
    destruct s1 as [|d s2]; [discriminate|].
    destruct (d =? LF)%N; [|discriminate].
    intros [= <-]. cbn [length] in *. lia.
Qed.

(** *** [String.prototype.split] with the splitter

    The loop of [RegExp.prototype[Symbol.split]]: [p] is the start of the
    piece being collected, [q] the index at which a match is tried.  No
    limit is passed at line 20, so the limit is [2^32 - 1] pieces, more
    than a string of any engine has code units; the early return on the
    limit is left out. *)

Definition inspect {A} (a : A) : { b : A | a = b } := exist _ a eq_refl.

Equations? split_loop (str : jsstring) (p q : nat) : list jsstring
    by wf (length str - q) lt :=
  split_loop str p q with lt_dec q (length str) := {
    | right _ := [substring str p (length str)]
    | left Hq with inspect (regexp_exec_sticky newline_re str q) := {
        | exist _ None _ := split_loop str p (q + 1)
        | exist _ (Some e) He with Nat.eq_dec e p := {
            | left _ := split_loop str p (q + 1)
            | right _ := substring str p q :: split_loop str e e } } }.
Proof.
  all: try lia.
  apply exec_newline_progress in He. lia.
Qed.

(** [str.split(/\r?\n/)].  The splitter does not match the empty string,
    so the empty string splits into one empty piece. *)
Definition split_newlines (str : jsstring) : list jsstring :=
  match str with
  | [] =>
      match regexp_exec_sticky newline_re str 0 with
      | Some _ => []
      | None => [str]
      end
  | _ => split_loop str 0 0
  end.

(** Lines 19 to 22: the cleaned list of ISRCs. *)
Definition parse_isrcs (isrcInput : jsstring) : list jsstring :=
  filter (fun line => 0 <? length line)
    (map (fun line => trim line) (split_newlines isrcInput)).

(** ** The parse step as the specification words it

    The lines of a text, where a line ends at a CRLF pair or at an LF:
    the text before the first line ending is the first line, and the
    text after the last one is the last line (empty when the text ends
    with a line ending). *)

Definition push_front (x : jsstring) (ls : list jsstring) : list jsstring :=
  match ls with
  | l :: ls' => (x ++ l) :: ls'
  | [] => [x]
  end.

Fixpoint lines_crlf_or_lf (s : jsstring) : list jsstring :=
  match s with
  | [] => [[]]
  | c :: s1 =>
      if (c =? LF)%N then [] :: lines_crlf_or_lf s1
      else
        match s1 with
        | d :: s2 =>
            if (c =? CR)%N && (d =? LF)%N then [] :: lines_crlf_or_lf s2
            else push_front [c] (lines_crlf_or_lf s1)
        | [] => push_front [c] (lines_crlf_or_lf s1)
        end
  end.

Definition cleaned_lines (raw : jsstring) : list jsstring :=
  filter (fun line => negb (Nat.eqb (length line) 0))
    (map trim (lines_crlf_or_lf raw)).

(** The same as a relation, without a scan of the text: a text splits
    into one line when it has no LF in it; otherwise into a first line
    without an LF, a line ending, and the lines of the rest.  A line
    before an LF ending does not end with a CR, since a CR before an LF
    is part of the line ending. *)
Definition ends_with_CR (l : jsstring) : Prop :=
  exists l', l = l' ++ [CR].

Inductive line_split : jsstring -> list jsstring -> Prop :=
| split_last l :
    ~ In LF l ->
    line_split l [l]
| split_at_lf l rest ls :
    ~ In LF l -> ~ ends_with_CR l ->
    line_split rest ls ->
    line_split (l ++ LF :: rest) (l :: ls)
| split_at_crlf l rest ls :
    ~ In LF l ->
    line_split rest ls ->
    line_split (l ++ CR :: LF :: rest) (l :: ls).

(** ** JavaScript values

    What [response.json()] can resolve to, and [undefined] for the
    properties a value does not have.  A number is the double that the
    parser produced, as a value of IEEE 754. *)

#[local] Unset Elimination Schemes.
Inductive value : Type :=
| VUndefined
| VNull
| VBool (b : bool)
| VNumber (x : spec_float)
| VString (s : jsstring)
| VArray (elems : list value)
| VObject (props : list (jsstring * value)).
#[local] Set Elimination Schemes.

(** [ToBoolean]: what [!v], [v || w] and [if (v)] test. *)
Definition ToBoolean (v : value) : bool :=
  match v with
  | VUndefined | VNull => false
  | VBool b => b
  | VNumber (S754_zero _) | VNumber S754_nan => false
  | VNumber _ => true
  | VString s => negb (Nat.eqb (length s) 0)
  | VArray _ | VObject _ => true
  end.

(** [v || w] *)
Definition js_or (v w : value) : value :=
  if ToBoolean v then v else w.

Fixpoint jsstring_eqb (a b : jsstring) : bool :=
  match a, b with
  | [], [] => true
  | x :: a', y :: b' => (x =? y)%N && jsstring_eqb a' b'
  | _, _ => false
  end.

(** The own property [k] of a parsed object; [props] lists the own
    properties of the object, each name once. *)
Fixpoint own_property (props : list (jsstring * value)) (k : jsstring)
    : option value :=
  match props with
  | [] => None
  | (name, v) :: props' =>
      if jsstring_eqb name k then Some v else own_property props' k
  end.

(** ** Exceptions, promises and the network *)

(** A thrown [Error] (or [DOMException]): everything the [try] block of
    [handleSubmit] can throw is one, and the handler reads its
    [message]; [VUndefined] stands for an error without one. *)
Record exn : Type := { exn_message : value }.

Inductive settled (A : Type) : Type :=
| Fulfilled (a : A)
| Rejected (e : exn).
Arguments Fulfilled {A} a.
Arguments Rejected {A} e.

(** A [Response]: its status, and what [response.json()] settles to
    (a rejection is a [SyntaxError] for a body that is not JSON). *)
Record response : Type := {
  status : N;
  json_body : settled value
}.

(** [response.ok], as the Fetch standard defines it. *)
Definition ok (r : response) : bool :=
  (200 <=? status r)%N && (status r <=? 299)%N.

(** The request of lines 31 to 37.  [req_json] is the array that line 36
    serialises with [JSON.stringify] into the body. *)
Record request : Type := {
  req_url : jsstring;
  req_method : jsstring;
  req_headers : list (jsstring * jsstring);
  req_json : list jsstring
}.

Definition post_isrcs (isrcs : list jsstring) : request :=
  {| req_url := lit "/";
     req_method := lit "POST";
     req_headers := [(lit "Content-Type", lit "application/json")];
     req_json := isrcs |}.

(** The server, as the page sees it: what each request settles to. *)
Definition network := request -> settled response.

(** [`${n}`] for a status code. *)
Definition number_to_string (n : N) : jsstring :=
  lit (NilZero.string_of_uint (N.to_uint n)).

(** The [TypeError] of reading property [k] of [null] or [undefined],
    in the wording of V8; the wording differs between engines, and
    nothing below depends on more than its not being empty. *)
Definition TypeError_read (v : value) (k : jsstring) : exn :=
  {| exn_message :=
       VString (lit "Cannot read properties of "
                ++ match v with VNull => lit "null" | _ => lit "undefined" end
                ++ lit " (reading '" ++ k ++ lit "')") |}.

(** ** The component state (lines 4 to 8) and its surroundings *)

Record state : Type := {
  isrcInput : jsstring;
  isLoading : bool;
  resultUrl : value;
  errorMessage : value;
  successMessage : value;
  (** the requests sent so far, oldest first *)
  sent : list request;
  (** the errors logged with [console.error], oldest first *)
  console : list exn
}.

Definition initial_state : state :=
  {| isrcInput := []; isLoading := false; resultUrl := VNull;
     errorMessage := VNull; successMessage := VNull;
     sent := []; console := [] |}.

(** ** A monad for the script: state and exceptions *)

Inductive completion (A : Type) : Type :=
| Normal (a : A)
| Throw (e : exn).
Arguments Normal {A} a.
Arguments Throw {A} e.

Definition M (A : Type) : Type := state -> completion A * state.

Definition ret {A} (a : A) : M A := fun s => (Normal a, s).

Definition bind {A B} (m : M A) (k : A -> M B) : M B :=
  fun s =>
    match m s with
    | (Normal a, s') => k a s'
    | (Throw e, s') => (Throw e, s')
    end.

Definition throw {A} (e : exn) : M A := fun s => (Throw e, s).

Declare Scope script_scope.
Delimit Scope script_scope with script.
Notation "x <- m ;; k" := (bind m (fun x => k))
  (at level 61, m at next level, right associativity) : script_scope.
Notation "m ;; k" := (bind m (fun _ => k))
  (at level 61, right associativity) : script_scope.
Open Scope script_scope.

(** [try { body } catch (error) { handler } finally { final }] *)
Definition try_catch_finally (body : M unit) (handler : exn -> M unit)
    (final : M unit) : M unit :=
  fun s =>
    let '(c1, s1) := body s in
    let '(c2, s2) :=
      match c1 with
      | Normal _ => (c1, s1)
      | Throw e => handler e s1
      end in
    match final s2 with
    | (Normal _, s3) => (c2, s3)
    | (Throw e, s3) => (Throw e, s3)
    end.

(** [await p] for a promise that settles as [p]. *)
Definition await {A} (p : settled A) : M A :=
  match p with
  | Fulfilled a => ret a
  | Rejected e => throw e
  end.

(** [v.k], for the property names [success], [message] and [url] that
    [handleSubmit] reads: no prototype of a parsed value defines them,
    so they are own properties of an object or [undefined]. *)
Definition property (v : value) (k : jsstring) : value :=
  match v with
  | VObject props =>
      match own_property props k with
      | Some x => x
      | None => VUndefined
      end
  | _ => VUndefined
  end.

Definition nullish (v : value) : bool :=
  match v with
  | VUndefined | VNull => true
  | _ => false
  end.

Definition get (v : value) (k : jsstring) : M value :=
  if nullish v then throw (TypeError_read v k) else ret (property v k).

Definition read {A} (field : state -> A) : M A :=
  fun s => (Normal (field s), s).

Definition set_isrcInput (x : jsstring) : M unit := fun s =>
  (Normal tt,
   {| isrcInput := x; isLoading := isLoading s; resultUrl := resultUrl s;
      errorMessage := errorMessage s; successMessage := successMessage s;
      sent := sent s; console := console s |}).

Definition set_isLoading (x : bool) : M unit := fun s =>
  (Normal tt,
   {| isrcInput := isrcInput s; isLoading := x; resultUrl := resultUrl s;
      errorMessage := errorMessage s; successMessage := successMessage s;
      sent := sent s; console := console s |}).

Definition set_resultUrl (x : value) : M unit := fun s =>
  (Normal tt,
   {| isrcInput := isrcInput s; isLoading := isLoading s; resultUrl := x;
      errorMessage := errorMessage s; successMessage := successMessage s;
      sent := sent s; console := console s |}).

Definition set_errorMessage (x : value) : M unit := fun s =>
  (Normal tt,
   {| isrcInput := isrcInput s; isLoading := isLoading s;
      resultUrl := resultUrl s; errorMessage := x;
      successMessage := successMessage s;
      sent := sent s; console := console s |}).

Definition set_successMessage (x : value) : M unit := fun s =>
  (Normal tt,
   {| isrcInput := isrcInput s; isLoading := isLoading s;
      resultUrl := resultUrl s; errorMessage := errorMessage s;
      successMessage := x; sent := sent s; console := console s |}).

(** The request leaves the page. *)
Definition send (req : request) : M unit := fun s =>
  (Normal tt,
   {| isrcInput := isrcInput s; isLoading := isLoading s;
      resultUrl := resultUrl s; errorMessage := errorMessage s;
      successMessage := successMessage s;
      sent := sent s ++ [req]; console := console s |}).

(** [fetch(url, init)]: the request goes out, and the promise settles as
    the network decides. *)
Definition fetch (net : network) (req : request) : M (settled response) :=
  send req ;; ret (net req).

Definition console_error (e : exn) : M unit := fun s =>
  (Normal tt,
   {| isrcInput := isrcInput s; isLoading := isLoading s;
      resultUrl := resultUrl s; errorMessage := errorMessage s;
      successMessage := successMessage s;
      sent := sent s; console := console s ++ [e] |}).

(** ** [handleSubmit] (lines 11 to 58) *)

(** [await tick()]: the pending state changes reach the DOM; the state
    itself is not touched. *)
Definition await_tick : M unit := ret tt.

(** Lines 12 to 15. *)
Definition reset_outcome : M unit :=
  set_isLoading true ;;
  set_resultUrl VNull ;;
  set_errorMessage VNull ;;
  set_successMessage VNull.

(** Line 41, [!response.ok || !data.success]: [data.success] is read
    only when the left operand is false. *)
Definition response_failed (r : response) (data : value) : M bool :=
  if negb (ok r) then ret true
  else (success <- get data (lit "success") ;;
        ret (negb (ToBoolean success))).

(** Lines 41 to 51: what is done with the parsed body. *)
Definition handle_data (r : response) (data : value) : M unit :=
  failed <- response_failed r data ;;
  if failed then
    message <- get data (lit "message") ;;
    set_errorMessage
      (js_or message
         (VString (lit "Request failed with status "
                   ++ number_to_string (status r)))) ;;
    url <- get data (lit "url") ;;
    if ToBoolean url then
      url' <- get data (lit "url") ;;
      set_resultUrl url'
    else ret tt
  else
    message <- get data (lit "message") ;;
    set_successMessage (js_or message (VString (lit "Success!"))) ;;
    url <- get data (lit "url") ;;
    set_resultUrl url ;;
    set_isrcInput [].

(** Lines 31 to 51: the block of the [try]. *)
Definition try_block (net : network) (isrcs : list jsstring) : M unit :=
  promise <- fetch net (post_isrcs isrcs) ;;
  r <- await promise ;;
  data <- await (json_body r) ;;
  handle_data r data.

(** Lines 52 to 54: the [catch] clause. *)
Definition catch_clause (error : exn) : M unit :=
  console_error error ;;
  set_errorMessage
    (js_or (exn_message error)
       (VString (lit "An unexpected error occurred."))).

(** Lines 55 to 57: the [finally] clause. *)
Definition finally_clause : M unit := set_isLoading false.

Definition handleSubmit (net : network) : M unit :=
  reset_outcome ;;
  await_tick ;;
  raw <- read isrcInput ;;
  let isrcs := parse_isrcs raw in
  if Nat.eqb (length isrcs) 0 then
    set_errorMessage (VString (lit "Please enter at least one ISRC.")) ;;
    set_isLoading false
  else
    try_catch_finally (try_block net isrcs) catch_clause finally_clause.

(** The state in which an invocation of [handleSubmit] ends. *)
Definition after_submit (net : network) (s : state) : state :=
  snd (handleSubmit net s).

(** ** What the template shows (lines 92 to 108) *)

Definition loading_shown (s : state) : bool := isLoading s.
Definition success_shown (s : state) : bool := ToBoolean (successMessage s).
Definition error_shown (s : state) : bool := ToBoolean (errorMessage s).
Definition url_shown (s : state) : bool := ToBoolean (resultUrl s).

Inductive outcome : Type := NoOutcome | Loading | Success | Error.

(** The outcomes that are active for display in a state. *)
Definition active_outcomes (s : state) : list outcome :=
  let shown :=
    (if loading_shown s then [Loading] else [])
    ++ (if success_shown s then [Success] else [])
    ++ (if error_shown s then [Error] else []) in
  match shown with
  | [] => [NoOutcome]
  | _ => shown
  end.

(** ** The page as a machine

    An invocation of [handleSubmit] is suspended at each of its three
    [await]s and resumed when the promise settles; between two
    resumptions the user may act on the form.  The textarea and the
    button carry [disabled={isLoading}] (lines 81 and 83), so typing
    and submitting are possible only while [isLoading] is false. *)

Inductive suspension : Type :=
| AwaitingTick
| AwaitingFetch
| AwaitingJson (r : response).

Record machine : Type := {
  component : state;
  (** the invocations of [handleSubmit] that have not finished *)
  waiting : list suspension
}.

Inductive event : Type :=
| TypeText (text : jsstring)
| Submit
| TickDone (i : nat)
| FetchSettled (i : nat) (o : settled response)
| JsonSettled (i : nat).

(** From [await tick()] to [await fetch(...)], lines 19 to 37; [None]
    when the invocation is over. *)
Definition resume_after_tick : M (option suspension) :=
  raw <- read isrcInput ;;
  let isrcs := parse_isrcs raw in
  if Nat.eqb (length isrcs) 0 then
    set_errorMessage (VString (lit "Please enter at least one ISRC.")) ;;
    set_isLoading false ;;
    ret None
  else
    send (post_isrcs isrcs) ;;
    ret (Some AwaitingFetch).

(** From the settled [fetch] to [await response.json()], line 39; a
    rejection goes to the [catch] and [finally] clauses. *)
Definition resume_after_fetch (o : settled response) : M (option suspension) :=
  match o with
  | Fulfilled r => ret (Some (AwaitingJson r))
  | Rejected e => catch_clause e ;; finally_clause ;; ret None
  end.

(** From the settled [response.json()] to the end, lines 41 to 57. *)
Definition resume_after_json (r : response) : M (option suspension) :=
  match json_body r with
  | Fulfilled data =>
      try_catch_finally (handle_data r data) catch_clause finally_clause ;;
      ret None
  | Rejected e => catch_clause e ;; finally_clause ;; ret None
  end.

Fixpoint replace_nth {A} (i : nat) (l : list A) (x : option A) : list A :=
  match l, i with
  | [], _ => []
  | _ :: l', 0 => match x with Some y => y :: l' | None => l' end
  | a :: l', S i' => a :: replace_nth i' l' x
  end.

(** Resuming invocation [i] with the rest of its body. *)
Definition resume (m : machine) (i : nat) (rest : M (option suspension))
    : machine :=
  match rest (component m) with
  | (Normal next, s') =>
      {| component := s'; waiting := replace_nth i (waiting m) next |}
  | (Throw _, s') =>
      {| component := s'; waiting := replace_nth i (waiting m) None |}
  end.

Definition step (m : machine) (ev : event) : option machine :=
  match ev with
  | TypeText text =>
      if isLoading (component m) then None
      else Some {| component := snd (set_isrcInput text (component m));
                   waiting := waiting m |}
  | Submit =>
      if isLoading (component m) then None
      else Some {| component := snd (reset_outcome (component m));
                   waiting := waiting m ++ [AwaitingTick] |}
  | TickDone i =>
      match nth_error (waiting m) i with
      | Some AwaitingTick => Some (resume m i resume_after_tick)
      | _ => None
      end
  | FetchSettled i o =>
      match nth_error (waiting m) i with
      | Some AwaitingFetch => Some (resume m i (resume_after_fetch o))
      | _ => None
      end
  | JsonSettled i =>
      match nth_error (waiting m) i with
      | Some (AwaitingJson r) => Some (resume m i (resume_after_json r))
      | _ => None
      end
  end.

Fixpoint run (m : machine) (evs : list event) : option machine :=
  match evs with
  | [] => Some m
  | ev :: evs' =>
      match step m ev with
      | Some m' => run m' evs'
      | None => None
      end
  end.

Definition initial_machine : machine :=
  {| component := initial_state; waiting := [] |}.

(** ** The ways an invocation of [handleSubmit] ends

    The four outcome branches of the body, as a relation between the
    state before and the state after; [handleSubmit_result] below shows
    that every invocation ends in one of them. *)

Definition empty_input_message : value :=
  VString (lit "Please enter at least one ISRC.").

Definition unexpected_error_message : value :=
  VString (lit "An unexpected error occurred.").

Definition default_success_message : value :=
  VString (lit "Success!").

Definition status_message (r : response) : value :=
  VString (lit "Request failed with status " ++ number_to_string (status r)).

(** What the [try] block can throw for the cleaned list [isrcs]. *)
Inductive try_throws (net : network) (isrcs : list jsstring) : exn -> Prop :=
| FetchRejects e :
    net (post_isrcs isrcs) = Rejected e ->
    try_throws net isrcs e
| JsonRejects r e :
    net (post_isrcs isrcs) = Fulfilled r ->
    json_body r = Rejected e ->
    try_throws net isrcs e
| BodyNullish r data :
    net (post_isrcs isrcs) = Fulfilled r ->
    json_body r = Fulfilled data ->
    nullish data = true ->
    try_throws net isrcs
      (TypeError_read data (lit (if ok r then "success" else "message"))).

Inductive submit_result (net : network) (s : state) : state -> Prop :=
| EndsInvalid :
    parse_isrcs (isrcInput s) = [] ->
    submit_result net s
      {| isrcInput := isrcInput s; isLoading := false; resultUrl := VNull;
         errorMessage := empty_input_message; successMessage := VNull;
         sent := sent s; console := console s |}
| EndsThrown e :
    parse_isrcs (isrcInput s) <> [] ->
    try_throws net (parse_isrcs (isrcInput s)) e ->
    submit_result net s
      {| isrcInput := isrcInput s; isLoading := false; resultUrl := VNull;
         errorMessage := js_or (exn_message e) unexpected_error_message;
         successMessage := VNull;
         sent := sent s ++ [post_isrcs (parse_isrcs (isrcInput s))];
         console := console s ++ [e] |}
| EndsFailure r data :
    parse_isrcs (isrcInput s) <> [] ->
    net (post_isrcs (parse_isrcs (isrcInput s))) = Fulfilled r ->
    json_body r = Fulfilled data ->
    nullish data = false ->
    ok r && ToBoolean (property data (lit "success")) = false ->
    submit_result net s
      {| isrcInput := isrcInput s; isLoading := false;
         resultUrl :=
           (if ToBoolean (property data (lit "url"))
            then property data (lit "url") else VNull);
         errorMessage :=
           js_or (property data (lit "message")) (status_message r);
         successMessage := VNull;
         sent := sent s ++ [post_isrcs (parse_isrcs (isrcInput s))];
         console := console s |}
| EndsSuccess r data :
    parse_isrcs (isrcInput s) <> [] ->
    net (post_isrcs (parse_isrcs (isrcInput s))) = Fulfilled r ->
    json_body r = Fulfilled data ->
    nullish data = false ->
    ok r && ToBoolean (property data (lit "success")) = true ->
    submit_result net s
      {| isrcInput := []; isLoading := false;
         resultUrl := property data (lit "url");
         errorMessage := VNull;
         successMessage :=
           js_or (property data (lit "message")) default_success_message;
         sent := sent s ++ [post_isrcs (parse_isrcs (isrcInput s))];
         console := console s |}.

(** ** The invariant of the machine *)

(** What holds between two events: either no invocation is suspended,
    the page is not loading and at most one of the two messages is set;
    or one invocation is suspended, the page is loading and nothing of
    an earlier outcome is left. *)
Definition settled_state (s : state) : Prop :=
  isLoading s = false
  /\ (successMessage s = VNull \/ errorMessage s = VNull).

Definition loading_state (s : state) : Prop :=
  isLoading s = true /\ resultUrl s = VNull
  /\ errorMessage s = VNull /\ successMessage s = VNull.

Definition machine_inv (m : machine) : Prop :=
  match waiting m with
  | [] => settled_state (component m)
  | [_] => loading_state (component m)
  | _ :: _ :: _ => False
  end.

(** The three resumptions, from a loading state: each either suspends
    again, still loading, or ends the invocation in a settled state. *)
Definition resumes_well (rest : M (option suspension)) (s : state) : Prop :=
  exists next s',
    rest s = (Normal next, s')
    /\ match next with
       | Some _ => loading_state s'
       | None => settled_state s'
       end.

(** ** Test data: inputs, servers, bodies and a session *)

Definition scenario_input : jsstring :=
  lit "USRC12345678" ++ [LF; LF] ++ lit "USRC87654321"
  ++ [CR; LF; SP; SP; LF].

Definition with_input (raw : jsstring) : state :=
  {| isrcInput := raw; isLoading := false; resultUrl := VNull;
     errorMessage := VNull; successMessage := VNull;
     sent := []; console := [] |}.

Definition reply (st : N) (body : settled value) : network :=
  fun _ => Fulfilled {| status := st; json_body := body |}.

Definition body_42 : value :=
  VObject [(lit "success", VBool true);
           (lit "url", VString (lit "https://x/lib/42"))].

Definition body_db_down : value :=
  VObject [(lit "success", VBool false);
           (lit "message", VString (lit "db down"))].

Definition syntax_error : exn :=
  {| exn_message :=
       VString (lit "Unexpected token '<', <!DOCTYPE ... is not valid JSON") |}.

Definition failed_to_fetch : exn :=
  {| exn_message := VString (lit "Failed to fetch") |}.

Definition body_partial : value :=
  VObject [(lit "success", VBool false);
           (lit "message", VString (lit "2 of 3 tracks not found"));
           (lit "url", VString (lit "https://x/lib/43"))].


(** A session: a failed attempt with a partial url, then a second
    submit, which succeeds; and the state after the second submit. *)
Definition session : list event :=
  [TypeText scenario_input; Submit; TickDone 0;
   FetchSettled 0
     (Fulfilled {| status := 500; json_body := Fulfilled body_partial |});
   JsonSettled 0;
   Submit; TickDone 0;
   FetchSettled 0
     (Fulfilled {| status := 200; json_body := Fulfilled body_42 |});
   JsonSettled 0].

Definition session_end : machine :=
  Eval vm_compute in
    match run initial_machine session with
    | Some m => m
    | None => initial_machine
    end.

(** ** A text from a list of lines

    [ls.join("\n")]: the lines with an LF between each two. *)
Fixpoint join_lf (ls : list jsstring) : jsstring :=
  match ls with
  | [] => []
  | l :: ls' =>
      match ls' with
      | [] => l
      | _ :: _ => l ++ LF :: join_lf ls'
      end
  end.

(** ** Events of a session

    The events by which the promises of one invocation settle when the
    network is [net]: the tick, then the fetch, then the body if there
    is a response. *)
Definition settling_events (net : network) (s : state) : list event :=
  let isrcs := parse_isrcs (isrcInput s) in
  if Nat.eqb (length isrcs) 0 then [TickDone 0]
  else
    match net (post_isrcs isrcs) with
    | Fulfilled r =>
        [TickDone 0; FetchSettled 0 (Fulfilled r); JsonSettled 0]
    | Rejected e => [TickDone 0; FetchSettled 0 (Rejected e)]
    end.

Definition is_submit (ev : event) : bool :=
  match ev with
  | Submit => true
  | _ => false
  end.

(** The link of lines 104 to 108 is shown with a message only. *)
Definition link_has_message (s : state) : Prop :=
  url_shown s = true -> success_shown s = true \/ error_shown s = true.

(** ** [JSON.stringify] of a list of strings (line 36)

    [QuoteJSONString] of ECMAScript: the string between two quotation
    marks, with the escapes of its table for backspace, tab, line feed,
    form feed, carriage return, quotation mark and backslash, a
    [\uXXXX] escape for the other code points below space and for a
    surrogate that is not part of a pair, and everything else as it
    is. *)

Definition QUOTE : code_unit := 0x22%N.
Definition BACKSLASH : code_unit := 0x5C%N.

Definition is_leading_surrogate (c : code_unit) : bool :=
  (0xD800 <=? c)%N && (c <=? 0xDBFF)%N.

Definition is_trailing_surrogate (c : code_unit) : bool :=
  (0xDC00 <=? c)%N && (c <=? 0xDFFF)%N.

(** A lowercase hexadecimal digit. *)
Definition hex_digit (d : N) : code_unit :=
  if (d <? 10)%N then (0x30 + d)%N else (0x61 + (d - 10))%N.

(** [UnicodeEscape]: [\u] and four hexadecimal digits. *)
Definition UnicodeEscape (c : code_unit) : jsstring :=
  [BACKSLASH; 0x75%N;
   hex_digit ((c / 0x1000) mod 16)%N; hex_digit ((c / 0x100) mod 16)%N;
   hex_digit ((c / 0x10) mod 16)%N; hex_digit (c mod 16)%N].

(** A code point that is one code unit and no leading surrogate. *)
Definition quote_unit (c : code_unit) : jsstring :=
  if (c =? 0x08)%N then [BACKSLASH; 0x62%N]
  else if (c =? 0x09)%N then [BACKSLASH; 0x74%N]
  else if (c =? 0x0A)%N then [BACKSLASH; 0x6E%N]
  else if (c =? 0x0C)%N then [BACKSLASH; 0x66%N]
  else if (c =? 0x0D)%N then [BACKSLASH; 0x72%N]
  else if (c =? QUOTE)%N then [BACKSLASH; QUOTE]
  else if (c =? BACKSLASH)%N then [BACKSLASH; BACKSLASH]
  else if (c <? 0x20)%N || is_trailing_surrogate c then UnicodeEscape c
  else [c].

Fixpoint quote_units (s : jsstring) : jsstring :=
  match s with
  | [] => []
  | c :: rest =>
      if is_leading_surrogate c then
        match rest with
        | d :: rest' =>
            if is_trailing_surrogate d then c :: d :: quote_units rest'
            else UnicodeEscape c ++ quote_units rest
        | [] => UnicodeEscape c
        end
      else quote_unit c ++ quote_units rest
  end.

Definition QuoteJSONString (s : jsstring) : jsstring :=
  QUOTE :: quote_units s ++ [QUOTE].

Fixpoint join_comma (parts : list jsstring) : jsstring :=
  match parts with
  | [] => []
  | x :: parts' =>
      match parts' with
      | [] => x
      | _ :: _ => x ++ 0x2C%N :: join_comma parts'
      end
  end.

(** [JSON.stringify(isrcs)] for an array of strings: the quoted strings
    with commas between them, in square brackets. *)
Definition JSON_stringify_strings (l : list jsstring) : jsstring :=
  0x5B%N :: join_comma (map QuoteJSONString l) ++ [0x5D%N].

(** The body of a request, line 36. *)
Definition request_body (req : request) : jsstring :=
  JSON_stringify_strings (req_json req).

(** Reading a quoted string back, up to its closing quotation mark, as
    a JSON parser reads the escapes that [QuoteJSONString] writes;
    the result is the string and what follows the quotation mark. *)
Definition hex_value (c : code_unit) : option N :=
  if (0x30 <=? c)%N && (c <=? 0x39)%N then Some (c - 0x30)%N
  else if (0x61 <=? c)%N && (c <=? 0x66)%N then Some (c - 0x61 + 10)%N
  else None.

Definition simple_escape (e : code_unit) : option code_unit :=
  if (e =? 0x62)%N then Some 0x08%N
  else if (e =? 0x74)%N then Some 0x09%N
  else if (e =? 0x6E)%N then Some 0x0A%N
  else if (e =? 0x66)%N then Some 0x0C%N
  else if (e =? 0x72)%N then Some 0x0D%N
  else if (e =? QUOTE)%N then Some QUOTE
  else if (e =? BACKSLASH)%N then Some BACKSLASH
  else None.

Definition read_more (c : code_unit) (r : option (jsstring * jsstring))
    : option (jsstring * jsstring) :=
  match r with
  | Some (t, tail) => Some (c :: t, tail)
  | None => None
  end.

Fixpoint unquote_units (s : jsstring) : option (jsstring * jsstring) :=
  match s with
  | [] => None
  | c :: rest =>
      if (c =? QUOTE)%N then Some ([], rest)
      else if (c =? BACKSLASH)%N then
        match rest with
        | e :: rest1 =>
            if (e =? 0x75)%N then
              match rest1 with
              | h3 :: h2 :: h1 :: h0 :: rest2 =>
                  match hex_value h3, hex_value h2,
                        hex_value h1, hex_value h0 with
                  | Some a, Some b, Some c', Some d =>
                      read_more (((a * 16 + b) * 16 + c') * 16 + d)%N
                        (unquote_units rest2)
                  | _, _, _, _ => None
                  end
              | _ => None
              end
            else
              match simple_escape e with
              | Some x => read_more x (unquote_units rest1)
              | None => None
              end
        | [] => None
        end
      else read_more c (unquote_units rest)
  end.


(** The scenario input typed and submitted, the tick done, the fetch
    not settled yet. *)
Definition in_flight : machine :=
  Eval vm_compute in
    match run initial_machine [TypeText scenario_input; Submit; TickDone 0] with
    | Some m => m
    | None => initial_machine
    end.

(** What follows the first element in the text of an array. *)
Definition after_element (l : list jsstring) : jsstring :=
  match l with
  | [] => [0x5D%N]
  | _ :: _ => 0x2C%N :: join_comma (map QuoteJSONString l) ++ [0x5D%N]
  end.


(** A parsed body that is an object. *)
Definition is_object (v : value) : bool :=
  match v with
  | VObject _ => true
  | _ => false
  end.

(** ** Trimming as the specification words it

    A line is blank when it has nothing but white space and line
    terminators in it.  A line is stripped to an item when the item is
    the line without the white space around it: the line is the item
    with white space before and after, and the item neither begins nor
    ends with white space. *)
Definition blank_line (line : jsstring) : bool :=
  forallb is_trimmed_char line.

Definition stripped_to (line item : jsstring) : Prop :=
  exists pre post,
    line = pre ++ item ++ post
    /\ forallb is_trimmed_char pre = true
    /\ forallb is_trimmed_char post = true
    /\ (forall c t, item = c :: t -> is_trimmed_char c = false)
    /\ (forall t c, item = t ++ [c] -> is_trimmed_char c = false).

(** Bodies with a message. *)
Definition body_created : value :=
  VObject [(lit "success", VBool true);
           (lit "message", VString (lit "Library created"));
           (lit "url", VString (lit "https://x/lib/42"))].

Definition body_only_message : value :=
  VObject [(lit "message", VString (lit "quota exceeded"))].

(** * Proofs *)

(** ** The split loop computes the lines *)

Lemma skipn_succ_of_cons {A} (l : list A) (n : nat) (x : A) (rest : list A) :
  skipn n l = x :: rest -> skipn (n + 1) l = rest.
Proof.
  revert l. induction n as [|n IH]; intros l H.
  - cbn in H. subst l. reflexivity.
  - destruct l as [|y l]; [discriminate|]. cbn in H |- *. auto.
Qed.

Lemma firstn_succ_of_cons {A} (l : list A) (n : nat) (x : A) (rest : list A) :
  skipn n l = x :: rest -> firstn (S n) l = firstn n l ++ [x].
Proof.
  revert l. induction n as [|n IH]; intros l H.
  - cbn in H. subst l. reflexivity.
  - destruct l as [|y l]; [discriminate|].
    cbn [skipn] in H. apply IH in H.
    change (firstn (S (S n)) (y :: l)) with (y :: firstn (S n) l).
    rewrite H. reflexivity.
Qed.

Lemma skipn_add {A} (l : list A) (a b : nat) :
  skipn (a + b) l = skipn b (skipn a l).
Proof.
  revert l. induction a as [|a IH]; intros l; [reflexivity|].
  destruct l as [|y l]; cbn [Nat.add skipn].
  - now rewrite skipn_nil.
  - apply IH.
Qed.

Lemma substring_snoc str p q c rest :
  p <= q -> skipn q str = c :: rest ->
  substring str p (q + 1) = substring str p q ++ [c].
Proof.
  intros Hpq Hq. unfold substring.
  replace (q + 1 - p) with (S (q - p)) by lia.
  apply firstn_succ_of_cons with (rest := rest).
  rewrite <- skipn_add. replace (p + (q - p)) with q by lia. exact Hq.
Qed.

Lemma substring_empty str p : substring str p p = [].
Proof. unfold substring. now rewrite Nat.sub_diag. Qed.

Lemma substring_to_end str p q :
  length str <= q -> substring str p (length str) = substring str p q.
Proof.
  intros Hq. unfold substring.
  rewrite !firstn_all2; [reflexivity| |]; rewrite length_skipn; lia.
Qed.

Lemma lines_not_nil s : lines_crlf_or_lf s <> [].
Proof.
  destruct s as [|c s1]; cbn; [discriminate|].
  destruct (c =? LF)%N; [discriminate|].
  destruct s1 as [|d s2].
  - cbn. discriminate.
  - destruct ((c =? CR)%N && (d =? LF)%N); [discriminate|].
    destruct (lines_crlf_or_lf (d :: s2)); discriminate.
Qed.

Lemma push_front_nil ls : ls <> [] -> push_front [] ls = ls.
Proof. destruct ls; [congruence|reflexivity]. Qed.

Lemma push_front_app x y ls :
  ls <> [] -> push_front x (push_front y ls) = push_front (x ++ y) ls.
Proof.
  destruct ls as [|l ls]; [congruence|]. intros _. cbn.
  now rewrite app_assoc.
Qed.

(** What the splitter does at index [q], read off the subject. *)
Lemma exec_newline_cases str q :
  regexp_exec_sticky newline_re str q =
  match skipn q str with
  | c :: s1 =>
      if (c =? LF)%N then Some (q + 1)
      else if (c =? CR)%N then
        match s1 with
        | d :: s2 => if (d =? LF)%N then Some (q + 2) else None
        | [] => None
        end
      else None
  | [] => None
  end.
Proof.
  unfold regexp_exec_sticky. rewrite rmatch_newline_cases.
  pose proof (length_skipn q str) as Hlen.
  destruct (skipn q str) as [|c s1]; [reflexivity|].
  cbn [length] in Hlen.
  destruct (c =? LF)%N; [f_equal; lia|].
  destruct (c =? CR)%N; [|reflexivity].
  destruct s1 as [|d s2]; [reflexivity|].
  destruct (d =? LF)%N; [|reflexivity].
  cbn [length] in Hlen. f_equal. lia.
Qed.

Lemma lines_cons_cases c s1 :
  lines_crlf_or_lf (c :: s1) =
  if (c =? LF)%N then [] :: lines_crlf_or_lf s1
  else if (c =? CR)%N then
    match s1 with
    | d :: s2 =>
        if (d =? LF)%N then [] :: lines_crlf_or_lf s2
        else push_front [c] (lines_crlf_or_lf s1)
    | [] => push_front [c] (lines_crlf_or_lf s1)
    end
  else push_front [c] (lines_crlf_or_lf s1).
Proof.
  cbn [lines_crlf_or_lf].
  destruct (c =? LF)%N; [reflexivity|].
  destruct s1 as [|d s2]; destruct (c =? CR)%N; reflexivity.
Qed.

Lemma skipn_nonempty {A} (l : list A) (q : nat) :
  q < length l -> exists c rest, skipn q l = c :: rest.
Proof.
  intros Hq. pose proof (length_skipn q l) as Hlen.
  destruct (skipn q l) as [|c rest]; [cbn in Hlen; lia|eauto].
Qed.

(** No match at [q]: the code unit at [q] joins the piece collected. *)
Lemma split_step_no_match str p q :
  p <= q < length str ->
  regexp_exec_sticky newline_re str q = None ->
  push_front (substring str p (q + 1))
    (lines_crlf_or_lf (skipn (q + 1) str)) =
  push_front (substring str p q) (lines_crlf_or_lf (skipn q str)).
Proof.
  intros Hpq Hexec. rewrite exec_newline_cases in Hexec.
  destruct (@skipn_nonempty _ str q) as (c & s1 & Hs); [lia|].
  rewrite Hs in Hexec |- *.
  rewrite (skipn_succ_of_cons _ _ Hs).
  rewrite (@substring_snoc str p q c s1) by (lia || assumption).
  rewrite lines_cons_cases.
  destruct (c =? LF)%N; [discriminate|].
  destruct (c =? CR)%N.
  - destruct s1 as [|d s2].
    + now rewrite push_front_app by apply lines_not_nil.
    + destruct (d =? LF)%N; [discriminate|].
      now rewrite push_front_app by apply lines_not_nil.
  - now rewrite push_front_app by apply lines_not_nil.
Qed.

(** A match at [q] ending at [e]: the piece collected is a line, and the
    lines of the rest follow. *)
Lemma split_step_match str p q e :
  p <= q < length str ->
  regexp_exec_sticky newline_re str q = Some e ->
  substring str p q :: lines_crlf_or_lf (skipn e str) =
  push_front (substring str p q) (lines_crlf_or_lf (skipn q str)).
Proof.
  intros Hpq Hexec. rewrite exec_newline_cases in Hexec.
  destruct (@skipn_nonempty _ str q) as (c & s1 & Hs); [lia|].
  rewrite Hs in Hexec |- *. rewrite lines_cons_cases.
  pose proof (skipn_succ_of_cons _ _ Hs) as Hs1.
  destruct (c =? LF)%N.
  - injection Hexec as <-. rewrite Hs1. cbn. now rewrite app_nil_r.
  - destruct (c =? CR)%N; [|discriminate].
    destruct s1 as [|d s2]; [discriminate|].
    destruct (d =? LF)%N; [|discriminate].
    injection Hexec as <-.
    replace (q + 2) with (q + 1 + 1) by lia.
    rewrite (skipn_succ_of_cons _ _ Hs1). cbn. now rewrite app_nil_r.
Qed.

Lemma split_loop_lines str p q :
  p <= q <= length str ->
  split_loop str p q =
  push_front (substring str p q) (lines_crlf_or_lf (skipn q str)).
Proof.
  funelim (split_loop str p q); intros Hpq.
  - (* q = str.length: the last piece *)
    rewrite skipn_all2 by lia. cbn. rewrite app_nil_r.
    f_equal. apply substring_to_end. lia.
  - (* no match at q *)
    match goal with
    | IH : _ -> split_loop _ _ (_ + 1) = push_front _ _ |- _ =>
        rewrite IH by lia
    end.
    apply split_step_no_match; [lia|assumption].
  - (* an empty match at p: the splitter has none *)
    match goal with
    | Hm : regexp_exec_sticky _ _ _ = Some _ |- _ =>
        pose proof (exec_newline_progress _ _ Hm)
    end.
    lia.
  - (* a match at q: a piece ends *)
    match goal with
    | Hm : regexp_exec_sticky _ _ _ = Some _ |- _ =>
        pose proof (exec_newline_progress _ _ Hm) as Hprog;
        pose proof (@split_step_match str p q e ltac:(lia) Hm) as Hstep
    end.
    match goal with
    | IH : _ -> split_loop _ _ _ = push_front _ _ |- _ =>
        rewrite IH by lia
    end.
    rewrite substring_empty, push_front_nil by apply lines_not_nil.
    exact Hstep.
Qed.

Lemma split_newlines_lines str :
  split_newlines str = lines_crlf_or_lf str.
Proof.
  destruct str as [|c s1] eqn:E; [reflexivity|].
  unfold split_newlines. rewrite split_loop_lines by (cbn; lia).
  rewrite substring_empty. cbn [skipn].
  apply push_front_nil, lines_not_nil.
Qed.

Lemma parse_isrcs_cleaned_lines raw :
  parse_isrcs raw = cleaned_lines raw.
Proof.
  unfold parse_isrcs, cleaned_lines. rewrite split_newlines_lines.
  apply filter_ext. intros l. destruct l; reflexivity.
Qed.

Example scenario_parse :
  parse_isrcs scenario_input = [lit "USRC12345678"; lit "USRC87654321"].
Proof. vm_compute. reflexivity. Qed.

Example scenario_success :
  let s := after_submit (reply 200 (Fulfilled body_42))
             (with_input scenario_input) in
  successMessage s = VString (lit "Success!")
  /\ resultUrl s = VString (lit "https://x/lib/42")
  /\ isrcInput s = [] /\ isLoading s = false /\ errorMessage s = VNull.
Proof. vm_compute. repeat split. Qed.

Example scenario_db_down :
  let s := after_submit (reply 500 (Fulfilled body_db_down))
             (with_input scenario_input) in
  errorMessage s = VString (lit "db down")
  /\ resultUrl s = VNull /\ successMessage s = VNull
  /\ isrcInput s = scenario_input /\ isLoading s = false.
Proof. vm_compute. repeat split. Qed.

Example scenario_status_default :
  errorMessage (after_submit (reply 404 (Fulfilled (VObject [])))
                  (with_input scenario_input))
  = VString (lit "Request failed with status 404").
Proof. vm_compute. reflexivity. Qed.

(** ** Every invocation ends in one of the four branches *)

Ltac unfold_script :=
  cbv [handleSubmit after_submit reset_outcome await_tick bind ret throw
       read set_isrcInput set_isLoading set_resultUrl set_errorMessage
       set_successMessage send fetch console_error await get
       try_catch_finally try_block catch_clause finally_clause
       handle_data response_failed snd fst
       isrcInput isLoading resultUrl errorMessage successMessage sent
       console].

(** Running the script up to the point where the hypotheses about the
    network decide the next branch. *)
Ltac run_script Hlen Hnet :=
  unfold_script; rewrite Hlen, Hnet; cbv beta iota zeta.

Lemma handleSubmit_result (net : network) (s : state) :
  exists s', handleSubmit net s = (Normal tt, s') /\ submit_result net s s'.
Proof.
  destruct s as [input loading url err succ reqs errs].
  destruct (parse_isrcs input) as [|isrc isrcs] eqn:Hparse.
  - eexists. split.
    + unfold_script. rewrite Hparse. cbn. reflexivity.
    + apply EndsInvalid. exact Hparse.
  - assert (Hne : parse_isrcs input <> []) by (rewrite Hparse; discriminate).
    assert (Hlen : Nat.eqb (length (parse_isrcs input)) 0 = false)
      by (rewrite Hparse; reflexivity).
    clear Hparse.
    set (s0 := {| isrcInput := input; isLoading := loading;
                  resultUrl := url; errorMessage := err;
                  successMessage := succ; sent := reqs; console := errs |}).
    change (parse_isrcs input) with (parse_isrcs (isrcInput s0)) in Hne.
    destruct (net (post_isrcs (parse_isrcs input))) as [r|e] eqn:Hnet.
    + destruct (json_body r) as [data|e] eqn:Hjson.
      * destruct (nullish data) eqn:Hnull.
        -- (* reading a property of null throws *)
           pose proof (@BodyNullish net _ r data Hnet Hjson Hnull) as Hthrows.
           pose proof (@EndsThrown net s0 _ Hne Hthrows) as Hres.
           eexists. split; [|exact Hres].
           subst s0. run_script Hlen Hnet. rewrite Hjson, Hnull.
           destruct (ok r); reflexivity.
        -- destruct (ok r && ToBoolean (property data (lit "success")))
             eqn:Hgood.
           ++ (* the success branch *)
              pose proof (@EndsSuccess net s0 r data Hne Hnet Hjson Hnull Hgood)
                as Hres.
              eexists. split; [|exact Hres].
              apply andb_prop in Hgood. destruct Hgood as [Hok Hsuccess].
              subst s0. run_script Hlen Hnet.
              rewrite Hjson, Hnull, Hok. cbn [negb]. cbv beta iota zeta.
              rewrite Hsuccess. reflexivity.
           ++ (* the failure branch *)
              pose proof (@EndsFailure net s0 r data Hne Hnet Hjson Hnull Hgood)
                as Hres.
              eexists. split; [|exact Hres].
              subst s0. run_script Hlen Hnet. rewrite Hjson, Hnull.
              destruct (ok r); cbn [negb andb] in *; cbv beta iota zeta.
              ** rewrite Hgood. cbn [negb]. cbv beta iota zeta.
                 destruct (ToBoolean (property data (lit "url")));
                   reflexivity.
              ** destruct (ToBoolean (property data (lit "url")));
                   reflexivity.
      * (* the body is not JSON *)
        pose proof (@JsonRejects net _ r e Hnet Hjson) as Hthrows.
        pose proof (@EndsThrown net s0 _ Hne Hthrows) as Hres.
        eexists. split; [|exact Hres].
        subst s0. run_script Hlen Hnet. rewrite Hjson. reflexivity.
    + (* the request fails *)
      pose proof (@FetchRejects net _ e Hnet) as Hthrows.
      pose proof (@EndsThrown net s0 _ Hne Hthrows) as Hres.
      eexists. split; [|exact Hres].
      subst s0. run_script Hlen Hnet. reflexivity.
Qed.

Lemma after_submit_result (net : network) (s : state) :
  submit_result net s (after_submit net s).
Proof.
  destruct (handleSubmit_result net s) as (s' & Hrun & Hres).
  unfold after_submit. rewrite Hrun. exact Hres.
Qed.

(** ** Facts about values and what is shown *)

Lemma ok_iff_2xx (r : response) :
  ok r = true <-> (200 <= status r <= 299)%N.
Proof.
  unfold ok. rewrite andb_true_iff, !N.leb_le. reflexivity.
Qed.

Lemma ok_false_iff (r : response) :
  ok r = false <-> ~ (200 <= status r <= 299)%N.
Proof.
  rewrite <- ok_iff_2xx. destruct (ok r); split; congruence.
Qed.

Lemma js_or_truthy (v w : value) :
  ToBoolean w = true -> ToBoolean (js_or v w) = true.
Proof.
  intros Hw. unfold js_or. destruct (ToBoolean v) eqn:Hv; assumption.
Qed.

Lemma property_nullish (v : value) (k : jsstring) :
  nullish v = true -> property v k = VUndefined.
Proof. destruct v; cbn; congruence. Qed.

Lemma truthy_not_nullish (v : value) (k : jsstring) :
  ToBoolean (property v k) = true -> nullish v = false.
Proof.
  destruct (nullish v) eqn:Hn; [|reflexivity].
  rewrite property_nullish by assumption. discriminate.
Qed.


(** One outcome is shown when the three flags exclude one another. *)
Lemma active_outcomes_error (s : state) :
  isLoading s = false -> successMessage s = VNull ->
  ToBoolean (errorMessage s) = true ->
  active_outcomes s = [Error].
Proof.
  intros Hl Hs He.
  unfold active_outcomes, loading_shown, success_shown, error_shown.
  rewrite Hl, Hs, He. reflexivity.
Qed.

Lemma active_outcomes_success (s : state) :
  isLoading s = false -> errorMessage s = VNull ->
  ToBoolean (successMessage s) = true ->
  active_outcomes s = [Success].
Proof.
  intros Hl He Hs.
  unfold active_outcomes, loading_shown, success_shown, error_shown.
  rewrite Hl, Hs, He. reflexivity.
Qed.

Lemma active_outcomes_loading (s : state) :
  isLoading s = true -> errorMessage s = VNull -> successMessage s = VNull ->
  active_outcomes s = [Loading].
Proof.
  intros Hl He Hs.
  unfold active_outcomes, loading_shown, success_shown, error_shown.
  rewrite Hl, Hs, He. reflexivity.
Qed.

(** Each branch ends with exactly one outcome shown, and not loading. *)
Lemma submit_result_outcome (net : network) (s s' : state) :
  submit_result net s s' ->
  isLoading s' = false
  /\ (active_outcomes s' = [Success] \/ active_outcomes s' = [Error]).
Proof.
  intros [Hempty | e Hne Hthrows | r data Hne Hnet Hjson Hnull Hbad
          | r data Hne Hnet Hjson Hnull Hgood];
    (split; [reflexivity|]).
  - right. apply active_outcomes_error; reflexivity.
  - right. apply active_outcomes_error; try reflexivity.
    apply js_or_truthy. reflexivity.
  - right. apply active_outcomes_error; try reflexivity.
    apply js_or_truthy. reflexivity.
  - left. apply active_outcomes_success; try reflexivity.
    apply js_or_truthy. reflexivity.
Qed.

(** Binding the state after, for a case analysis on how it came about. *)
Ltac submit_cases net s :=
  let Hres := fresh "Hres" in
  let Heq := fresh "Heq" in
  let s' := fresh "s'" in
  pose proof (after_submit_result net s) as Hres;
  remember (after_submit net s) as s' eqn:Heq;
  clear Heq.

(** ** The lines of a text *)

Lemma CR_not_LF : CR <> LF.
Proof. discriminate. Qed.

(** A code unit that is not the start of a line ending goes in front of
    the first line. *)
Lemma line_split_cons (c : code_unit) (s1 l : jsstring) (ls : list jsstring) :
  c <> LF ->
  ~ (c = CR /\ exists s2, s1 = LF :: s2) ->
  line_split s1 (l :: ls) ->
  line_split (c :: s1) ((c :: l) :: ls).
Proof.
  intros Hc Hcrlf Hsplit.
  inversion Hsplit as [l0 Hl | l0 rest ls0 Hl Hcr Hrest | l0 rest ls0 Hl Hrest];
    subst.
  - apply split_last. intros [H|H]; [congruence|contradiction].
  - apply (@split_at_lf (c :: l) rest ls); [| |exact Hrest].
    + intros [H|H]; [congruence|contradiction].
    + intros [l' Hl']. destruct l as [|d l].
      * apply Hcrlf. destruct l' as [|x l'].
        -- injection Hl' as ->. split; [reflexivity|]. now exists rest.
        -- destruct l'; discriminate.
      * apply Hcr. destruct l' as [|x l']; [discriminate|].
        injection Hl' as _ Hl'. now exists l'.
  - apply (@split_at_crlf (c :: l) rest ls); [|exact Hrest].
    intros [H|H]; [congruence|contradiction].
Qed.

Lemma lines_split_bounded (n : nat) (s : jsstring) :
  length s <= n -> line_split s (lines_crlf_or_lf s).
Proof.
  revert s. induction n as [|n IH]; intros s Hlen.
  - destruct s; [|cbn in Hlen; lia]. apply split_last. intros [].
  - destruct s as [|c s1]; [apply split_last; intros []|].
    cbn [length] in Hlen.
    assert (Hpush : c <> LF -> ~ (c = CR /\ exists s2, s1 = LF :: s2) ->
      line_split (c :: s1) (push_front [c] (lines_crlf_or_lf s1))).
    { intros Hc Hcrlf. pose proof (IH s1 ltac:(lia)) as Hs1.
      destruct (lines_crlf_or_lf s1) as [|l ls] eqn:E.
      - now apply lines_not_nil in E.
      - now apply line_split_cons. }
    rewrite lines_cons_cases.
    destruct (N.eqb_spec c LF) as [->|Hlf].
    + apply (@split_at_lf [] s1); [intros []| |apply IH; lia].
      intros [l' Hl']. destruct l'; discriminate.
    + destruct (N.eqb_spec c CR) as [->|Hcr].
      * destruct s1 as [|d s2].
        -- apply Hpush; [exact Hlf|]. intros (_ & s2 & H). discriminate.
        -- destruct (N.eqb_spec d LF) as [->|Hd].
           ++ apply (@split_at_crlf [] s2); [intros []|].
              apply IH. cbn [length] in Hlen. lia.
           ++ apply Hpush; [exact Hlf|]. intros (_ & s3 & H). congruence.
      * apply Hpush; [exact Hlf|]. intros (H & _). contradiction.
Qed.

Lemma lines_split (s : jsstring) : line_split s (lines_crlf_or_lf s).
Proof. apply (@lines_split_bounded (length s)). lia. Qed.

Lemma lines_of_single (l : jsstring) :
  ~ In LF l -> lines_crlf_or_lf l = [l].
Proof.
  induction l as [|c l IH]; intros Hl; [reflexivity|].
  assert (Hc : c <> LF) by (intros ->; apply Hl; now left).
  assert (Hl' : ~ In LF l) by (intros H; apply Hl; now right).
  rewrite lines_cons_cases, (IH Hl').
  destruct (N.eqb_spec c LF) as [?|_]; [contradiction|].
  destruct (c =? CR)%N; [|reflexivity].
  destruct l as [|d l2]; [reflexivity|].
  destruct (N.eqb_spec d LF) as [->|_]; [|reflexivity].
  exfalso. apply Hl'. now left.
Qed.

Lemma lines_of_lf (l rest : jsstring) :
  ~ In LF l -> ~ ends_with_CR l ->
  lines_crlf_or_lf (l ++ LF :: rest) = l :: lines_crlf_or_lf rest.
Proof.
  induction l as [|c l IH]; intros Hl Hcr.
  - cbn [app]. rewrite lines_cons_cases. now rewrite N.eqb_refl.
  - assert (Hc : c <> LF) by (intros ->; apply Hl; now left).
    assert (Hl' : ~ In LF l) by (intros H; apply Hl; now right).
    assert (Hcr' : ~ ends_with_CR l).
    { intros [l' ->]. apply Hcr. now exists (c :: l'). }
    cbn [app]. rewrite lines_cons_cases, (IH Hl' Hcr').
    destruct (N.eqb_spec c LF) as [?|_]; [contradiction|].
    destruct (N.eqb_spec c CR) as [->|_]; [|reflexivity].
    destruct l as [|d l2].
    + exfalso. apply Hcr. now exists [].
    + cbn [app]. destruct (N.eqb_spec d LF) as [->|_]; [|reflexivity].
      exfalso. apply Hl'. now left.
Qed.

Lemma lines_of_crlf (l rest : jsstring) :
  ~ In LF l ->
  lines_crlf_or_lf (l ++ CR :: LF :: rest) = l :: lines_crlf_or_lf rest.
Proof.
  induction l as [|c l IH]; intros Hl.
  - cbn [app]. rewrite lines_cons_cases.
    destruct (N.eqb_spec CR LF) as [H|_]; [discriminate H|].
    now rewrite !N.eqb_refl.
  - assert (Hc : c <> LF) by (intros ->; apply Hl; now left).
    assert (Hl' : ~ In LF l) by (intros H; apply Hl; now right).
    cbn [app]. rewrite lines_cons_cases, (IH Hl').
    destruct (N.eqb_spec c LF) as [?|_]; [contradiction|].
    destruct (c =? CR)%N; [|reflexivity].
    destruct l as [|d l2]; cbn [app].
    + destruct (N.eqb_spec CR LF) as [H|_]; [discriminate H|reflexivity].
    + destruct (N.eqb_spec d LF) as [->|_]; [|reflexivity].
      exfalso. apply Hl'. now left.
Qed.

(** A text splits into lines in one way only. *)
Lemma line_split_unique (s : jsstring) (ls : list jsstring) :
  line_split s ls -> ls = lines_crlf_or_lf s.
Proof.
  induction 1 as [l Hl | l rest ls Hl Hcr Hrest IH | l rest ls Hl Hrest IH].
  - symmetry. now apply lines_of_single.
  - rewrite lines_of_lf by assumption. now rewrite IH.
  - rewrite lines_of_crlf by assumption. now rewrite IH.
Qed.

(** ** [trim] takes the white space off both ends and nothing else *)

Lemma trim_start_spec (s : jsstring) :
  exists pre,
    s = pre ++ trim_start s
    /\ forallb is_trimmed_char pre = true
    /\ (forall c t, trim_start s = c :: t -> is_trimmed_char c = false).
Proof.
  induction s as [|c s (pre & Hs & Hpre & Hhead)].
  - exists []. repeat split. discriminate.
  - cbn [trim_start]. destruct (is_trimmed_char c) eqn:Hc.
    + exists (c :: pre). cbn [app forallb]. rewrite Hc, Hpre.
      repeat split; [now rewrite <- Hs|exact Hhead].
    + exists []. repeat split. intros c' t [= <- _]. exact Hc.
Qed.

Lemma trim_spec (s : jsstring) :
  exists pre post,
    s = pre ++ trim s ++ post
    /\ forallb is_trimmed_char pre = true
    /\ forallb is_trimmed_char post = true
    /\ (forall c t, trim s = c :: t -> is_trimmed_char c = false)
    /\ (forall t c, trim s = t ++ [c] -> is_trimmed_char c = false).
Proof.
  destruct (trim_start_spec s) as (pre & Hs & Hpre & Hhead).
  destruct (trim_start_spec (rev (trim_start s))) as (tsop & Hr & Hpost & Hlast).
  exists pre, (rev tsop).
  assert (Hmid : trim_start s = trim s ++ rev tsop).
  { unfold trim, trim_end. rewrite <- rev_app_distr, <- Hr.
    now rewrite rev_involutive. }
  split; [now rewrite <- Hmid|]. split; [exact Hpre|]. split.
  - rewrite forallb_forall in Hpost |- *. intros x Hx.
    apply Hpost. now apply in_rev.
  - split.
    + intros c t Ht. apply (Hhead c (t ++ rev tsop)).
      rewrite Hmid, Ht. reflexivity.
    + intros t c Ht. apply (Hlast c (rev t)).
      unfold trim, trim_end in Ht.
      apply (f_equal (@rev _)) in Ht.
      rewrite rev_involutive, rev_app_distr in Ht. exact Ht.
Qed.

Lemma trim_start_fixed (t : jsstring) :
  (forall c r, t = c :: r -> is_trimmed_char c = false) ->
  trim_start t = t.
Proof.
  destruct t as [|c r]; [reflexivity|]. intros H.
  cbn [trim_start]. now rewrite (H c r eq_refl).
Qed.

Lemma trim_fixed (t : jsstring) :
  (forall c r, t = c :: r -> is_trimmed_char c = false) ->
  (forall r c, t = r ++ [c] -> is_trimmed_char c = false) ->
  trim t = t.
Proof.
  intros Hhead Hlast. unfold trim, trim_end.
  rewrite (trim_start_fixed Hhead).
  rewrite trim_start_fixed; [apply rev_involutive|].
  intros c r Hr. apply (Hlast (rev r) c).
  rewrite <- (rev_involutive t), Hr. reflexivity.
Qed.

Lemma trim_idempotent (s : jsstring) : trim (trim s) = trim s.
Proof.
  destruct (trim_spec s) as (pre & post & _ & _ & _ & Hhead & Hlast).
  now apply trim_fixed.
Qed.

Lemma trim_start_nil_iff (s : jsstring) :
  trim_start s = [] <-> forallb is_trimmed_char s = true.
Proof.
  induction s as [|c s IH]; [now split|].
  cbn [trim_start forallb]. destruct (is_trimmed_char c); cbn [andb].
  - exact IH.
  - split; discriminate.
Qed.

Lemma trim_nil_iff (s : jsstring) :
  trim s = [] <-> forallb is_trimmed_char s = true.
Proof.
  rewrite <- trim_start_nil_iff. unfold trim, trim_end. split.
  - intros H. destruct (trim_start s) as [|c r] eqn:E; [reflexivity|].
    exfalso.
    destruct (trim_start_spec s) as (pre & _ & _ & Hhead).
    specialize (Hhead c r E).
    apply (f_equal (@rev _)) in H. rewrite rev_involutive in H.
    cbn [rev] in H. apply trim_start_nil_iff in H.
    rewrite forallb_forall in H.
    rewrite (H c) in Hhead; [discriminate|].
    apply in_or_app. right. now left.
  - intros ->. reflexivity.
Qed.

Lemma forallb_rev {A} (f : A -> bool) (l : list A) :
  forallb f (rev l) = forallb f l.
Proof.
  induction l as [|x l IH]; [reflexivity|].
  cbn [rev forallb]. rewrite forallb_app, IH. cbn [forallb].
  rewrite andb_true_r. apply andb_comm.
Qed.

Lemma trim_start_white_prefix (pre x : jsstring) :
  forallb is_trimmed_char pre = true ->
  trim_start (pre ++ x) = trim_start x.
Proof.
  induction pre as [|c pre IH]; [reflexivity|].
  cbn [forallb app trim_start]. rewrite andb_true_iff.
  intros [-> Hpre]. auto.
Qed.

(** [trim] does what the words say, and nothing else does. *)
Lemma trim_stripped (line : jsstring) : stripped_to line (trim line).
Proof.
  destruct (trim_spec line) as (pre & post & H). now exists pre, post.
Qed.

Lemma stripped_to_trim (line item : jsstring) :
  stripped_to line item -> trim line = item.
Proof.
  intros (pre & post & -> & Hpre & Hpost & Hhead & Hlast).
  unfold trim. rewrite trim_start_white_prefix by exact Hpre.
  destruct item as [|c t].
  - cbn [app]. apply trim_start_nil_iff in Hpost. now rewrite Hpost.
  - cbn [app trim_start]. rewrite (Hhead c t eq_refl).
    unfold trim_end.
    change (c :: t ++ post) with ((c :: t) ++ post).
    rewrite rev_app_distr, trim_start_white_prefix
      by now rewrite forallb_rev.
    rewrite trim_start_fixed; [apply rev_involutive|].
    intros d r Hr. apply (Hlast (rev r) d).
    rewrite <- (rev_involutive (c :: t)), Hr. reflexivity.
Qed.

Lemma cleaned_lines_kept (ls : list jsstring) :
  filter (fun line => negb (Nat.eqb (length line) 0)) (map trim ls)
  = map trim (filter (fun line => negb (blank_line line)) ls).
Proof.
  induction ls as [|l ls IH]; [reflexivity|].
  cbn [map filter]. unfold blank_line at 1.
  destruct (forallb is_trimmed_char l) eqn:Hblank; cbn [negb].
  - apply trim_nil_iff in Hblank. rewrite Hblank. exact IH.
  - destruct (trim l) as [|c t] eqn:E.
    + apply trim_nil_iff in E. congruence.
    + cbn [length Nat.eqb negb map]. rewrite <- E. now rewrite IH.
Qed.

Lemma map_trim_stripped (ls : list jsstring) :
  Forall2 stripped_to ls (map trim ls).
Proof.
  induction ls; constructor; [apply trim_stripped|assumption].
Qed.

Lemma stripped_items_unique (ls items : list jsstring) :
  Forall2 stripped_to ls items -> items = map trim ls.
Proof.
  induction 1 as [|l item ls items Hl _ IH]; [reflexivity|].
  cbn [map]. now rewrite (stripped_to_trim Hl), IH.
Qed.

(** ** The claims *)

(** C1.  The parse step of [handleSubmit] (lines 19 to 22) produces, for
    every raw input text, the lines of the text, split at each CRLF and
    at each LF (the one way the text splits into lines), trimmed,
    without those that are empty after trimming, in their order: the
    cleaned list is the one list that has, for each line that is not
    blank and in the order of the lines, the line without the white
    space around it.  The input of the scenario parses to its two
    ISRCs, and lines with white space around and inside parse to the
    items without the white space around. *)
Theorem C1_parse_step :
  (forall raw : jsstring,
      line_split raw (lines_crlf_or_lf raw)
      /\ (forall ls, line_split raw ls -> ls = lines_crlf_or_lf raw)
      /\ parse_isrcs raw =
         filter (fun line => negb (Nat.eqb (length line) 0))
           (map trim (lines_crlf_or_lf raw))
      /\ Forall2 stripped_to
           (filter (fun line => negb (blank_line line))
              (lines_crlf_or_lf raw))
           (parse_isrcs raw)
      /\ (forall items,
            Forall2 stripped_to
              (filter (fun line => negb (blank_line line))
                 (lines_crlf_or_lf raw))
              items ->
            items = parse_isrcs raw))
  /\ parse_isrcs
       (lit "USRC12345678" ++ [LF; LF] ++ lit "USRC87654321"
        ++ [CR; LF; SP; SP; LF])
     = [lit "USRC12345678"; lit "USRC87654321"]
  /\ parse_isrcs
       ([SP; TAB] ++ lit "USRC12345678" ++ [SP; SP; LF; 0xA0%N]
        ++ lit "US RC" ++ [TAB; CR; LF] ++ lit "B" ++ [CR])
     = [lit "USRC12345678"; lit "US RC"; lit "B"].
Proof.
  split; [|split; vm_compute; reflexivity].
  intros raw. split; [apply lines_split|].
  split; [apply line_split_unique|].
  assert (Hkept : parse_isrcs raw =
                  map trim (filter (fun line => negb (blank_line line))
                              (lines_crlf_or_lf raw))).
  { rewrite parse_isrcs_cleaned_lines. apply cleaned_lines_kept. }
  split; [apply parse_isrcs_cleaned_lines|]. split.
  - rewrite Hkept. apply map_trim_stripped.
  - intros items Hitems. rewrite Hkept.
    now apply stripped_items_unique.
Qed.

(** C2.  [handleSubmit] ends with the success message shown exactly when
    the cleaned list was sent, the response has a 2xx status and the
    parsed body has a true [success] (line 41 tests its truthiness; for
    a boolean [success], as the server sends it, that is [success: true]).
    Then the success message is the message of the response when it
    has one (a truthy [message], line 48), and ['Success!'] when it has
    none; the result url is the url of the response, and the raw input
    is cleared. *)
Theorem C2_success_iff (net : network) (s : state) :
  let isrcs := parse_isrcs (isrcInput s) in
  let s' := after_submit net s in
  (success_shown s' = true <->
     isrcs <> [] /\
     exists r data,
       net (post_isrcs isrcs) = Fulfilled r
       /\ json_body r = Fulfilled data
       /\ (200 <= status r <= 299)%N
       /\ ToBoolean (property data (lit "success")) = true)
  /\ (forall r data b,
        isrcs <> [] ->
        net (post_isrcs isrcs) = Fulfilled r ->
        json_body r = Fulfilled data ->
        property data (lit "success") = VBool b ->
        (success_shown s' = true <->
           (200 <= status r <= 299)%N /\ b = true))
  /\ (success_shown s' = true ->
      forall r data,
        net (post_isrcs isrcs) = Fulfilled r ->
        json_body r = Fulfilled data ->
        successMessage s' =
          (if ToBoolean (property data (lit "message"))
           then property data (lit "message")
           else VString (lit "Success!"))
        /\ resultUrl s' = property data (lit "url")
        /\ isrcInput s' = []
        /\ active_outcomes s' = [Success]).
Proof.
  intros isrcs s'. subst isrcs s'.
  assert (Hiff : success_shown (after_submit net s) = true <->
     parse_isrcs (isrcInput s) <> [] /\
     exists r data,
       net (post_isrcs (parse_isrcs (isrcInput s))) = Fulfilled r
       /\ json_body r = Fulfilled data
       /\ (200 <= status r <= 299)%N
       /\ ToBoolean (property data (lit "success")) = true).
  { submit_cases net s.
    destruct Hres as [Hempty | e Hne Hthrows | r data Hne Hnet Hjson Hnull Hbad
                     | r data Hne Hnet Hjson Hnull Hgood];
      unfold success_shown; cbn [successMessage ToBoolean].
    - split; [discriminate|]. intros [Hne _]. contradiction.
    - split; [discriminate|].
      intros (_ & r & data & Hnet & Hjson & Hst & Hsucc).
      apply ok_iff_2xx in Hst.
      destruct Hthrows as [e He | r0 e Hnet0 Hjson0 | r0 d0 Hnet0 Hjson0 Hn0];
        try congruence.
      assert (r0 = r) by congruence. subst r0.
      assert (d0 = data) by congruence. subst d0.
      apply truthy_not_nullish in Hsucc. congruence.
    - split; [discriminate|].
      intros (_ & r0 & d0 & Hnet0 & Hjson0 & Hst & Hsucc).
      assert (r0 = r) by congruence. subst r0.
      assert (d0 = data) by congruence. subst d0.
      apply ok_iff_2xx in Hst. rewrite Hst, Hsucc in Hbad. discriminate.
    - split.
      + intros _. split; [exact Hne|]. exists r, data.
        apply andb_prop in Hgood. destruct Hgood as [Hok Hsucc].
        apply ok_iff_2xx in Hok. auto.
      + intros _. apply js_or_truthy. reflexivity. }
  split; [exact Hiff|]. split.
  - intros r data b Hne Hnet Hjson Hb. rewrite Hiff. split.
    + intros (_ & r0 & d0 & Hnet0 & Hjson0 & Hst & Hsucc).
      assert (r0 = r) by congruence. subst r0.
      assert (d0 = data) by congruence. subst d0.
      rewrite Hb in Hsucc. auto.
    + intros [Hst ->]. split; [exact Hne|]. exists r, data.
      rewrite Hb. auto.
  - submit_cases net s.
    destruct Hres as [Hempty | e Hne Hthrows | r data Hne Hnet Hjson Hnull Hbad
                     | r data Hne Hnet Hjson Hnull Hgood];
      unfold success_shown; cbn [successMessage ToBoolean];
      try discriminate.
    intros _ r0 d0 Hnet0 Hjson0.
    assert (r0 = r) by congruence. subst r0.
    assert (d0 = data) by congruence. subst d0.
    cbn [resultUrl isrcInput]. repeat split.
    apply active_outcomes_success; try reflexivity.
    apply js_or_truthy. reflexivity.
Qed.

(** The server of the scenario, status 200 and the body
    [{success: true, url: "https://x/lib/42"}], and one that sends the
    message ["Library created"] as well. *)
Lemma C2_success_iff_witness :
  (let s' := after_submit (reply 200 (Fulfilled body_42))
               (with_input scenario_input) in
   success_shown s' = true
   /\ successMessage s' = VString (lit "Success!")
   /\ resultUrl s' = VString (lit "https://x/lib/42")
   /\ isrcInput s' = []
   /\ active_outcomes s' = [Success])
  /\ (let s' := after_submit (reply 201 (Fulfilled body_created))
                  (with_input scenario_input) in
      success_shown s' = true
      /\ successMessage s' = VString (lit "Library created")
      /\ resultUrl s' = VString (lit "https://x/lib/42")
      /\ isrcInput s' = []
      /\ active_outcomes s' = [Success]).
Proof.
  split.
  - intros s'.
    pose proof (C2_success_iff (reply 200 (Fulfilled body_42))
                  (with_input scenario_input)) as H.
    cbv zeta in H. destruct H as (Hiff & _ & Hthen).
    assert (Hshown : success_shown s' = true).
    { apply Hiff. split; [vm_compute; discriminate|].
      exists {| status := 200; json_body := Fulfilled body_42 |}, body_42.
      repeat split; vm_compute; congruence. }
    split; [exact Hshown|].
    exact (Hthen Hshown _ _ eq_refl eq_refl).
  - intros s'.
    pose proof (C2_success_iff (reply 201 (Fulfilled body_created))
                  (with_input scenario_input)) as H.
    cbv zeta in H. destruct H as (Hiff & _ & Hthen).
    assert (Hshown : success_shown s' = true).
    { apply Hiff. split; [vm_compute; discriminate|].
      exists {| status := 201; json_body := Fulfilled body_created |},
             body_created.
      repeat split; vm_compute; congruence. }
    split; [exact Hshown|].
    exact (Hthen Hshown _ _ eq_refl eq_refl).
Defined.

(** For a response whose body parsed to a value with readable
    properties, the two branches of line 41. *)
Lemma parsed_response_cases (net : network) (s : state) (r : response)
    (data : value) :
  parse_isrcs (isrcInput s) <> [] ->
  net (post_isrcs (parse_isrcs (isrcInput s))) = Fulfilled r ->
  json_body r = Fulfilled data ->
  nullish data = false ->
  after_submit net s =
  if ok r && ToBoolean (property data (lit "success")) then
    {| isrcInput := []; isLoading := false;
       resultUrl := property data (lit "url");
       errorMessage := VNull;
       successMessage :=
         js_or (property data (lit "message")) default_success_message;
       sent := sent s ++ [post_isrcs (parse_isrcs (isrcInput s))];
       console := console s |}
  else
    {| isrcInput := isrcInput s; isLoading := false;
       resultUrl :=
         (if ToBoolean (property data (lit "url"))
          then property data (lit "url") else VNull);
       errorMessage :=
         js_or (property data (lit "message")) (status_message r);
       successMessage := VNull;
       sent := sent s ++ [post_isrcs (parse_isrcs (isrcInput s))];
       console := console s |}.
Proof.
  intros Hne Hnet Hjson Hnull. submit_cases net s.
  destruct Hres as [Hempty | e _ Hthrows | r0 d0 _ Hnet0 Hjson0 _ Hbad
                   | r0 d0 _ Hnet0 Hjson0 _ Hgood].
  - contradiction.
  - destruct Hthrows as [e He | r0 e Hnet0 Hjson0 | r0 d0 Hnet0 Hjson0 Hn0];
      congruence.
  - assert (r0 = r) by congruence. subst r0.
    assert (d0 = data) by congruence. subst d0.
    rewrite Hbad. reflexivity.
  - assert (r0 = r) by congruence. subst r0.
    assert (d0 = data) by congruence. subst d0.
    rewrite Hgood. reflexivity.
Qed.

(** When the [try] block throws, lines 52 to 57 decide the end. *)
Lemma thrown_case (net : network) (s : state) (e : exn) :
  parse_isrcs (isrcInput s) <> [] ->
  net (post_isrcs (parse_isrcs (isrcInput s))) = Rejected e
  \/ (exists r, net (post_isrcs (parse_isrcs (isrcInput s))) = Fulfilled r
                /\ json_body r = Rejected e) ->
  after_submit net s =
  {| isrcInput := isrcInput s; isLoading := false; resultUrl := VNull;
     errorMessage := js_or (exn_message e) unexpected_error_message;
     successMessage := VNull;
     sent := sent s ++ [post_isrcs (parse_isrcs (isrcInput s))];
     console := console s ++ [e] |}.
Proof.
  intros Hne Hfail. submit_cases net s.
  destruct Hres as [Hempty | e0 _ Hthrows | r0 d0 _ Hnet0 Hjson0 _ _
                   | r0 d0 _ Hnet0 Hjson0 _ _].
  - contradiction.
  - destruct Hthrows as [e0 He | r0 e0 Hnet0 Hjson0 | r0 d0 Hnet0 Hjson0 Hn0];
      destruct Hfail as [Hnet | (r & Hnet & Hjson)]; congruence.
  - destruct Hfail as [Hnet | (r & Hnet & Hjson)]; congruence.
  - destruct Hfail as [Hnet | (r & Hnet & Hjson)]; congruence.
Qed.

(** C3, as the code has it.  A response whose body parsed as JSON (to
    anything but [null]) and that indicates failure, by a status that is
    not 2xx or by a [success] that is not true, ends with the error
    shown: the message of the response, or without one the message made
    from the status code.  A response whose body is not JSON ends with
    the error shown too, but with the message of the exception that
    [response.json()] threw, whatever the status. *)
Theorem C3_failure_response (net : network) (s : state) (r : response) :
  let isrcs := parse_isrcs (isrcInput s) in
  let s' := after_submit net s in
  isrcs <> [] ->
  net (post_isrcs isrcs) = Fulfilled r ->
  (forall data,
      json_body r = Fulfilled data ->
      nullish data = false ->
      ~ (200 <= status r <= 299)%N
      \/ ToBoolean (property data (lit "success")) = false ->
      errorMessage s' =
        js_or (property data (lit "message"))
          (VString (lit "Request failed with status "
                    ++ number_to_string (status r)))
      /\ active_outcomes s' = [Error])
  /\ (forall e,
        json_body r = Rejected e ->
        errorMessage s' =
          js_or (exn_message e)
            (VString (lit "An unexpected error occurred."))
        /\ active_outcomes s' = [Error]).
Proof.
  intros isrcs s' Hne Hnet. subst isrcs s'. split.
  - intros data Hjson Hnull Hfail.
    rewrite (parsed_response_cases net s Hne Hnet Hjson Hnull).
    assert (Hbad : ok r && ToBoolean (property data (lit "success")) = false).
    { destruct Hfail as [Hst | Hsucc].
      - apply ok_false_iff in Hst. now rewrite Hst.
      - rewrite Hsucc. apply andb_false_r. }
    rewrite Hbad. split; [reflexivity|].
    apply active_outcomes_error; try reflexivity.
    apply js_or_truthy. reflexivity.
  - intros e Hjson.
    rewrite (@thrown_case net s e Hne) by (right; eauto).
    split; [reflexivity|].
    apply active_outcomes_error; try reflexivity.
    apply js_or_truthy. reflexivity.
Qed.

(** The scenario of the HTTP 500 with [{success: false, message: "db
    down"}], and a 404 whose body is an empty object. *)
Lemma C3_failure_response_witness :
  errorMessage (after_submit (reply 500 (Fulfilled body_db_down))
                  (with_input scenario_input))
  = VString (lit "db down")
  /\ errorMessage (after_submit (reply 404 (Fulfilled (VObject [])))
                     (with_input scenario_input))
     = VString (lit "Request failed with status 404").
Proof.
  split.
  - refine (proj1 (proj1 (@C3_failure_response
      (reply 500 (Fulfilled body_db_down)) (with_input scenario_input)
      {| status := 500; json_body := Fulfilled body_db_down |} _ eq_refl)
      body_db_down eq_refl eq_refl _)).
    + vm_compute. discriminate.
    + right. reflexivity.
  - refine (proj1 (proj1 (@C3_failure_response
      (reply 404 (Fulfilled (VObject []))) (with_input scenario_input)
      {| status := 404; json_body := Fulfilled (VObject []) |} _ eq_refl)
      (VObject []) eq_refl eq_refl _)).
    + vm_compute. discriminate.
    + left. vm_compute. intros [_ H]. apply H. reflexivity.
Defined.

(** C3 as it is worded fails for a response that is not 2xx and whose
    body is not JSON: a 500 with an HTML body ends with the message of
    the [SyntaxError], not with one made from the status code. *)
Lemma C3_counterexample :
  let r := {| status := 500; json_body := Rejected syntax_error |} in
  let s' := after_submit (fun _ => Fulfilled r)
              (with_input (lit "USRC12345678")) in
  ok r = false
  /\ errorMessage s' = exn_message syntax_error
  /\ errorMessage s' <> VString (lit "Request failed with status 500").
Proof.
  cbv zeta. split; [reflexivity|]. split; [vm_compute; reflexivity|].
  vm_compute. discriminate.
Qed.

(** C4.  When the cleaned list of the raw input is empty, [handleSubmit]
    sends no request and ends with the error ['Please enter at least
    one ISRC.'] shown; and whatever the input, each request that an
    invocation sends carries a cleaned list that is not empty. *)
Theorem C4_empty_input (net : network) (s : state) :
  let s' := after_submit net s in
  (parse_isrcs (isrcInput s) = [] ->
     sent s' = sent s
     /\ errorMessage s' = VString (lit "Please enter at least one ISRC.")
     /\ active_outcomes s' = [Error]
     /\ isLoading s' = false)
  /\ (exists new,
        sent s' = sent s ++ new
        /\ Forall (fun req => req_json req <> []) new).
Proof.
  intros s'. subst s'. submit_cases net s.
  destruct Hres as [Hempty | e Hne Hthrows | r data Hne Hnet Hjson Hnull Hbad
                   | r data Hne Hnet Hjson Hnull Hgood];
    cbn [sent errorMessage isLoading].
  - split.
    + intros _. repeat split.
    + exists []. split; [now rewrite app_nil_r|constructor].
  - split; [contradiction|]. eexists. split; [reflexivity|].
    repeat constructor. exact Hne.
  - split; [contradiction|]. eexists. split; [reflexivity|].
    repeat constructor. exact Hne.
  - split; [contradiction|]. eexists. split; [reflexivity|].
    repeat constructor. exact Hne.
Qed.

(** The scenario of the input of three spaces and two line feeds. *)
Lemma C4_empty_input_witness :
  let s := with_input ([SP; SP; SP] ++ [LF; LF]) in
  let s' := after_submit (reply 200 (Fulfilled body_42)) s in
  sent s' = []
  /\ errorMessage s' = VString (lit "Please enter at least one ISRC.")
  /\ active_outcomes s' = [Error]
  /\ isLoading s' = false.
Proof.
  intros s s'.
  apply (proj1 (C4_empty_input (reply 200 (Fulfilled body_42)) s)).
  vm_compute. reflexivity.
Defined.

(** C5.  A failure response, by a status that is not 2xx or by a
    [success] that is not true, whose parsed body has a url (line 44
    tests its truthiness) ends with the result url set to that url and
    shown, next to the error message. *)
Theorem C5_partial_success_url (net : network) (s : state) (r : response)
    (data : value) :
  let isrcs := parse_isrcs (isrcInput s) in
  let s' := after_submit net s in
  isrcs <> [] ->
  net (post_isrcs isrcs) = Fulfilled r ->
  json_body r = Fulfilled data ->
  ~ (200 <= status r <= 299)%N
  \/ ToBoolean (property data (lit "success")) = false ->
  ToBoolean (property data (lit "url")) = true ->
  resultUrl s' = property data (lit "url")
  /\ url_shown s' = true
  /\ error_shown s' = true
  /\ active_outcomes s' = [Error].
Proof.
  intros isrcs s' Hne Hnet Hjson Hfail Hurl. subst isrcs s'.
  pose proof (truthy_not_nullish _ _ Hurl) as Hnull.
  rewrite (parsed_response_cases net s Hne Hnet Hjson Hnull).
  assert (Hbad : ok r && ToBoolean (property data (lit "success")) = false).
  { destruct Hfail as [Hst | Hsucc].
    - apply ok_false_iff in Hst. now rewrite Hst.
    - rewrite Hsucc. apply andb_false_r. }
  rewrite Hbad. unfold url_shown, error_shown.
  cbn [resultUrl errorMessage]. rewrite Hurl.
  assert (Herr : ToBoolean (js_or (property data (lit "message"))
                              (status_message r)) = true)
    by (apply js_or_truthy; reflexivity).
  repeat split; try assumption.
  apply active_outcomes_error; try reflexivity. exact Herr.
Qed.

Lemma C5_partial_success_url_witness :
  let s' := after_submit (reply 200 (Fulfilled body_partial))
              (with_input scenario_input) in
  resultUrl s' = VString (lit "https://x/lib/43")
  /\ url_shown s' = true
  /\ error_shown s' = true
  /\ active_outcomes s' = [Error].
Proof.
  refine (@C5_partial_success_url (reply 200 (Fulfilled body_partial))
            (with_input scenario_input)
            {| status := 200; json_body := Fulfilled body_partial |}
            body_partial _ eq_refl eq_refl _ _).
  - vm_compute. discriminate.
  - right. reflexivity.
  - reflexivity.
Defined.

(** C6.  When the request fails or the body of the response is not
    JSON, [handleSubmit] ends with the error shown, the message being
    that of the exception, or ['An unexpected error occurred.'] when the
    exception has none; and the result url stays unset, so no url is
    shown. *)
Theorem C6_transport_failure (net : network) (s : state) (e : exn) :
  let isrcs := parse_isrcs (isrcInput s) in
  let s' := after_submit net s in
  isrcs <> [] ->
  net (post_isrcs isrcs) = Rejected e
  \/ (exists r, net (post_isrcs isrcs) = Fulfilled r
                /\ json_body r = Rejected e) ->
  errorMessage s' =
    js_or (exn_message e) (VString (lit "An unexpected error occurred."))
  /\ active_outcomes s' = [Error]
  /\ resultUrl s' = VNull
  /\ url_shown s' = false.
Proof.
  intros isrcs s' Hne Hfail. subst isrcs s'.
  rewrite (thrown_case net s Hne Hfail).
  split; [reflexivity|]. split; [|split; reflexivity].
  apply active_outcomes_error; try reflexivity.
  apply js_or_truthy. reflexivity.
Qed.

Lemma C6_transport_failure_witness :
  (let s' := after_submit (fun _ => Rejected failed_to_fetch)
               (with_input scenario_input) in
   errorMessage s' = VString (lit "Failed to fetch")
   /\ active_outcomes s' = [Error]
   /\ resultUrl s' = VNull
   /\ url_shown s' = false)
  /\ errorMessage (after_submit (reply 200 (Rejected {| exn_message := VUndefined |}))
                     (with_input scenario_input))
     = VString (lit "An unexpected error occurred.").
Proof.
  split.
  - refine (@C6_transport_failure (fun _ => Rejected failed_to_fetch)
              (with_input scenario_input) failed_to_fetch _ _).
    + vm_compute. discriminate.
    + left. reflexivity.
  - refine (proj1 (@C6_transport_failure
              (reply 200 (Rejected {| exn_message := VUndefined |}))
              (with_input scenario_input) {| exn_message := VUndefined |}
              _ _)).
    + vm_compute. discriminate.
    + right. eexists. split; reflexivity.
Defined.

(** C7.  Every invocation of [handleSubmit] resolves, and after it the
    loading flag is false, on each of the branches. *)
Theorem C7_loading_cleared (net : network) (s : state) :
  fst (handleSubmit net s) = Normal tt
  /\ isLoading (after_submit net s) = false.
Proof.
  destruct (handleSubmit_result net s) as (s' & Hrun & Hres).
  unfold after_submit. rewrite Hrun. cbn [fst snd]. split; [reflexivity|].
  apply (submit_result_outcome Hres).
Qed.

(** C9.  An invocation of [handleSubmit] that does not end in the
    success branch leaves the raw input as it was; one that does clears
    it. *)
Theorem C9_input_kept (net : network) (s : state) :
  let s' := after_submit net s in
  (success_shown s' = false -> isrcInput s' = isrcInput s)
  /\ (success_shown s' = true -> isrcInput s' = []).
Proof.
  intros s'. subst s'. submit_cases net s.
  destruct Hres as [Hempty | e Hne Hthrows | r data Hne Hnet Hjson Hnull Hbad
                   | r data Hne Hnet Hjson Hnull Hgood];
    unfold success_shown; cbn [successMessage isrcInput ToBoolean];
    split; try reflexivity; try discriminate.
  rewrite js_or_truthy by reflexivity. discriminate.
Qed.

Lemma C9_input_kept_witness :
  isrcInput (after_submit (reply 500 (Fulfilled body_db_down))
               (with_input scenario_input)) = scenario_input
  /\ isrcInput (after_submit (reply 200 (Fulfilled body_42))
                  (with_input scenario_input)) = [].
Proof.
  split.
  - apply (proj1 (C9_input_kept (reply 500 (Fulfilled body_db_down))
                    (with_input scenario_input))).
    vm_compute. reflexivity.
  - apply (proj2 (C9_input_kept (reply 200 (Fulfilled body_42))
                    (with_input scenario_input))).
    vm_compute. reflexivity.
Defined.



(** ** The machine keeps its invariant *)

Lemma settled_one_outcome (s : state) :
  settled_state s -> exists o, active_outcomes s = [o].
Proof.
  intros [Hl Hmsg].
  unfold active_outcomes, loading_shown, success_shown, error_shown.
  rewrite Hl. destruct Hmsg as [-> | ->]; cbn [ToBoolean app].
  - destruct (ToBoolean (errorMessage s)); eexists; reflexivity.
  - destruct (ToBoolean (successMessage s)); eexists; reflexivity.
Qed.

Lemma loading_one_outcome (s : state) :
  loading_state s -> active_outcomes s = [Loading].
Proof.
  intros (Hl & _ & He & Hs). now apply active_outcomes_loading.
Qed.

Lemma machine_inv_one_outcome (m : machine) :
  machine_inv m -> exists o, active_outcomes (component m) = [o].
Proof.
  unfold machine_inv. destruct (waiting m) as [|k [|k' ws]].
  - apply settled_one_outcome.
  - intros H. exists Loading. now apply loading_one_outcome.
  - intros [].
Qed.

Ltac unfold_resume :=
  cbv [resume_after_tick resume_after_fetch resume_after_json
       reset_outcome await_tick bind ret throw
       read set_isrcInput set_isLoading set_resultUrl set_errorMessage
       set_successMessage send fetch console_error await get
       try_catch_finally try_block catch_clause finally_clause
       handle_data response_failed snd fst
       isrcInput isLoading resultUrl errorMessage successMessage sent
       console].

Lemma resume_after_tick_well (s : state) :
  loading_state s -> resumes_well resume_after_tick s.
Proof.
  destruct s as [input loading url err succ reqs errs].
  intros (Hl & Hu & He & Hs). cbn in Hl, Hu, He, Hs. subst.
  unfold resumes_well. unfold_resume.
  destruct (Nat.eqb (length (parse_isrcs input)) 0).
  - eexists None, _. split; [reflexivity|]. split; [reflexivity|]. now left.
  - eexists (Some _), _. split; [reflexivity|]. repeat split.
Qed.

Lemma resume_after_fetch_well (o : settled response) (s : state) :
  loading_state s -> resumes_well (resume_after_fetch o) s.
Proof.
  destruct s as [input loading url err succ reqs errs].
  intros (Hl & Hu & He & Hs). cbn in Hl, Hu, He, Hs. subst.
  unfold resumes_well. unfold_resume. destruct o as [r|e].
  - eexists (Some _), _. split; [reflexivity|]. repeat split.
  - eexists None, _. split; [reflexivity|]. split; [reflexivity|]. now left.
Qed.

Lemma resume_after_json_well (r : response) (s : state) :
  loading_state s -> resumes_well (resume_after_json r) s.
Proof.
  destruct s as [input loading url err succ reqs errs].
  intros (Hl & Hu & He & Hs). cbn in Hl, Hu, He, Hs. subst.
  unfold resumes_well. unfold_resume. destruct (json_body r) as [data|e].
  - destruct (nullish data).
    + destruct (ok r); cbn [negb]; cbv beta iota zeta;
        (eexists None, _; split; [reflexivity|]);
        (split; [reflexivity|]); now left.
    + destruct (ok r); cbn [negb]; cbv beta iota zeta.
      * destruct (ToBoolean (property data (lit "success")));
          cbn [negb]; cbv beta iota zeta.
        -- eexists None, _. split; [reflexivity|].
           split; [reflexivity|]. now right.
        -- destruct (ToBoolean (property data (lit "url")));
             (eexists None, _; split; [reflexivity|]);
             (split; [reflexivity|]); now left.
      * destruct (ToBoolean (property data (lit "url")));
          (eexists None, _; split; [reflexivity|]);
          (split; [reflexivity|]); now left.
  - eexists None, _. split; [reflexivity|]. split; [reflexivity|]. now left.
Qed.

Lemma resume_preserves (m : machine) (k : suspension)
    (rest : M (option suspension)) :
  machine_inv m -> nth_error (waiting m) 0 = Some k ->
  resumes_well rest (component m) ->
  machine_inv (resume m 0 rest).
Proof.
  unfold machine_inv, resume. intros Hinv Hk (next & s' & Hrun & Hnext).
  rewrite Hrun. cbn [component waiting].
  destruct (waiting m) as [|k0 [|k1 ws]]; [discriminate| |contradiction].
  cbn [replace_nth]. destruct next; exact Hnext.
Qed.

(** Only the invocation at index 0 can be resumed, and only in a
    loading state. *)
Lemma waiting_index (m : machine) (i : nat) (k : suspension) :
  machine_inv m -> nth_error (waiting m) i = Some k ->
  i = 0 /\ loading_state (component m).
Proof.
  unfold machine_inv.
  destruct (waiting m) as [|k0 [|k1 ws]]; intros Hinv Hk.
  - destruct i; discriminate.
  - destruct i as [|i]; [auto|]. destruct i; discriminate.
  - contradiction.
Qed.

Lemma not_loading_idle (m : machine) :
  machine_inv m -> isLoading (component m) = false -> waiting m = [].
Proof.
  unfold machine_inv. destruct (waiting m) as [|k0 [|k1 ws]]; intros Hinv Hl.
  - reflexivity.
  - destruct Hinv as (Hl' & _). congruence.
  - contradiction.
Qed.

Lemma step_preserves (m m' : machine) (ev : event) :
  machine_inv m -> step m ev = Some m' -> machine_inv m'.
Proof.
  intros Hinv Hstep. destruct ev as [text | | i | i o | i]; cbn [step] in Hstep.
  - destruct (isLoading (component m)) eqn:Hl; [discriminate|].
    injection Hstep as <-.
    pose proof (not_loading_idle m Hinv Hl) as Hw.
    unfold machine_inv in *. cbn [waiting component]. rewrite Hw in *.
    destruct Hinv as [Hl' Hmsg]. split; [exact Hl'|exact Hmsg].
  - destruct (isLoading (component m)) eqn:Hl; [discriminate|].
    injection Hstep as <-.
    pose proof (not_loading_idle m Hinv Hl) as Hw.
    unfold machine_inv. cbn [waiting component]. rewrite Hw.
    cbn [app]. repeat split.
  - destruct (nth_error (waiting m) i) as [[| |r]|] eqn:Hk; try discriminate.
    injection Hstep as <-.
    destruct (waiting_index m i Hinv Hk) as [-> Hload].
    eapply resume_preserves; eauto using resume_after_tick_well.
  - destruct (nth_error (waiting m) i) as [[| |r]|] eqn:Hk; try discriminate.
    injection Hstep as <-.
    destruct (waiting_index m i Hinv Hk) as [-> Hload].
    eapply resume_preserves; eauto using resume_after_fetch_well.
  - destruct (nth_error (waiting m) i) as [[| |r]|] eqn:Hk; try discriminate.
    injection Hstep as <-.
    destruct (waiting_index m i Hinv Hk) as [-> Hload].
    eapply resume_preserves; eauto using resume_after_json_well.
Qed.

Lemma run_preserves (evs : list event) (m m' : machine) :
  machine_inv m -> run m evs = Some m' -> machine_inv m'.
Proof.
  revert m. induction evs as [|ev evs IH]; intros m Hinv Hrun; cbn in Hrun.
  - now injection Hrun as <-.
  - destruct (step m ev) as [m1|] eqn:Hstep; [|discriminate].
    eapply IH; [|exact Hrun]. eapply step_preserves; eauto.
Qed.

Lemma initial_machine_inv : machine_inv initial_machine.
Proof. split; [reflexivity|now left]. Qed.

(** The machine runs [handleSubmit]: from a page that is not loading, a
    submit and the settling of the promises that the invocation awaits
    end in the state that [handleSubmit] ends in. *)
Lemma machine_runs_handleSubmit (net : network) (s : state) :
  isLoading s = false ->
  exists o,
    let evs :=
      if Nat.eqb (length (parse_isrcs (isrcInput s))) 0
      then [Submit; TickDone 0]
      else match o with
           | Fulfilled _ => [Submit; TickDone 0; FetchSettled 0 o; JsonSettled 0]
           | Rejected _ => [Submit; TickDone 0; FetchSettled 0 o]
           end in
    (parse_isrcs (isrcInput s) <> [] ->
     o = net (post_isrcs (parse_isrcs (isrcInput s))))
    /\ run {| component := s; waiting := [] |} evs
       = Some {| component := after_submit net s; waiting := [] |}.
Proof.
  destruct s as [input loading url err succ reqs errs]. cbn [isLoading].
  intros ->. exists (net (post_isrcs (parse_isrcs input))).
  cbn [isrcInput]. split; [reflexivity|].
  destruct (Nat.eqb (length (parse_isrcs input)) 0) eqn:Hlen.
  - cbv [run step resume component waiting nth_error replace_nth app].
    unfold_resume. unfold_script. rewrite Hlen. reflexivity.
  - destruct (net (post_isrcs (parse_isrcs input))) as [r|e] eqn:Hnet;
      cbv [run step resume component waiting nth_error replace_nth app];
      unfold_resume; unfold_script; rewrite Hlen; cbv beta iota zeta;
      rewrite ?Hnet; cbv beta iota zeta.
    + destruct (json_body r) as [data|e']; [|reflexivity].
      destruct (nullish data); destruct (ok r); cbn [negb];
        cbv beta iota zeta; try reflexivity;
        destruct (ToBoolean (property data (lit "success")));
        cbn [negb]; cbv beta iota zeta; try reflexivity;
        destruct (ToBoolean (property data (lit "url"))); reflexivity.
    + reflexivity.
Qed.

(** What an invocation ends in does not depend on the outcome that was
    shown before it. *)
Lemma handleSubmit_overwrites (net : network) (s1 s2 : state) :
  isrcInput s1 = isrcInput s2 -> sent s1 = sent s2 ->
  console s1 = console s2 ->
  after_submit net s1 = after_submit net s2.
Proof.
  destruct s1 as [input1 loading1 url1 err1 succ1 reqs1 errs1].
  destruct s2 as [input2 loading2 url2 err2 succ2 reqs2 errs2].
  cbn [isrcInput sent console]. intros -> -> ->.
  unfold_script. reflexivity.
Qed.

(** C8.  After any sequence of events of the page (typing, submitting,
    the settling of the awaited promises), exactly one of none, loading,
    success and error is active for display, and at most one invocation
    of [handleSubmit] is under way.  A submit then starts from nothing:
    it resets url, error and success and shows loading alone, and what
    the invocation ends in is the same whatever outcome was there
    before it. *)
Theorem C8_one_outcome (evs : list event) (m : machine) :
  run initial_machine evs = Some m ->
  (exists o, active_outcomes (component m) = [o])
  /\ length (waiting m) <= 1
  /\ (forall m',
        step m Submit = Some m' ->
        resultUrl (component m') = VNull
        /\ errorMessage (component m') = VNull
        /\ successMessage (component m') = VNull
        /\ active_outcomes (component m') = [Loading])
  /\ (forall net url err succ loading,
        after_submit net
          {| isrcInput := isrcInput (component m); isLoading := loading;
             resultUrl := url; errorMessage := err; successMessage := succ;
             sent := sent (component m); console := console (component m) |}
        = after_submit net (component m)).
Proof.
  intros Hrun.
  pose proof (@run_preserves evs _ _ initial_machine_inv Hrun) as Hinv.
  split; [now apply machine_inv_one_outcome|]. split.
  - unfold machine_inv in Hinv.
    destruct (waiting m) as [|k [|k' ws]]; cbn [length]; [lia|lia|].
    contradiction.
  - split.
    + intros m' Hstep. cbn [step] in Hstep.
      destruct (isLoading (component m)); [discriminate|].
      injection Hstep as <-. cbn [component]. repeat split.
    + intros net url err succ loading.
      apply handleSubmit_overwrites; reflexivity.
Qed.

Lemma C8_one_outcome_witness :
  run initial_machine session = Some session_end
  /\ active_outcomes (component session_end) = [Success]
  /\ resultUrl (component session_end) = VString (lit "https://x/lib/42")
  /\ errorMessage (component session_end) = VNull
  /\ (exists o, active_outcomes (component session_end) = [o])
  /\ length (waiting session_end) <= 1.
Proof.
  assert (Hrun : run initial_machine session = Some session_end)
    by (vm_compute; reflexivity).
  pose proof (@C8_one_outcome session session_end Hrun)
    as (Hone & Hflight & _ & _).
  repeat split; try assumption.
Defined.

(** * Further properties of the code *)

(** ** The cleaned list *)

Lemma trim_incl (s : jsstring) (c : code_unit) : In c (trim s) -> In c s.
Proof.
  destruct (trim_spec s) as (pre & post & Hs & _). intros Hc.
  rewrite Hs. apply in_or_app. right. apply in_or_app. now left.
Qed.

Lemma line_split_no_LF (s : jsstring) (ls : list jsstring) :
  line_split s ls -> Forall (fun l => ~ In LF l) ls.
Proof. induction 1; constructor; auto. Qed.

Lemma in_parse_isrcs (raw l : jsstring) :
  In l (parse_isrcs raw) <->
  l <> [] /\ exists line, In line (lines_crlf_or_lf raw) /\ l = trim line.
Proof.
  rewrite parse_isrcs_cleaned_lines. unfold cleaned_lines.
  rewrite filter_In, in_map_iff. split.
  - intros [(line & <- & Hline) Hne]. split; [|eauto].
    destruct (trim line); [discriminate|discriminate].
  - intros (Hne & line & Hline & ->). split; [eauto|].
    destruct (trim line); [contradiction|reflexivity].
Qed.

Lemma line_split_all_white (s : jsstring) (ls : list jsstring) :
  line_split s ls ->
  forallb is_trimmed_char s = true <->
  Forall (fun l => forallb is_trimmed_char l = true) ls.
Proof.
  induction 1 as [l Hl | l rest ls Hl Hcr Hrest IH | l rest ls Hl Hrest IH].
  - split; [intros H; repeat constructor; exact H|].
    intros H. now inversion H.
  - rewrite forallb_app. cbn [forallb].
    change (is_trimmed_char LF) with true. cbn [andb].
    rewrite andb_true_iff, IH. split.
    + intros [H1 H2]. now constructor.
    + intros H. now inversion H.
  - rewrite forallb_app. cbn [forallb].
    change (is_trimmed_char LF) with true.
    change (is_trimmed_char CR) with true. cbn [andb].
    rewrite andb_true_iff, IH. split.
    + intros [H1 H2]. now constructor.
    + intros H. now inversion H.
Qed.

Lemma cleaned_lines_nil_iff (ls : list jsstring) :
  filter (fun line => negb (Nat.eqb (length line) 0)) (map trim ls) = [] <->
  Forall (fun l => forallb is_trimmed_char l = true) ls.
Proof.
  induction ls as [|l ls IH]; [split; constructor|].
  cbn [map filter]. destruct (trim l) as [|c t] eqn:E; cbn [length Nat.eqb negb].
  - rewrite IH. apply trim_nil_iff in E. split.
    + intros H. now constructor.
    + intros H. now inversion H.
  - split; [discriminate|]. intros H. inversion H as [|? ? Hl _]; subst.
    apply trim_nil_iff in Hl. congruence.
Qed.

Lemma parse_isrcs_nil_iff (raw : jsstring) :
  parse_isrcs raw = [] <-> forallb is_trimmed_char raw = true.
Proof.
  rewrite parse_isrcs_cleaned_lines. unfold cleaned_lines.
  rewrite cleaned_lines_nil_iff.
  symmetry. apply line_split_all_white, lines_split.
Qed.

(** What [handleSubmit] adds to the requests sent: one request with the
    cleaned list, or nothing when the list is empty. *)
Lemma sent_after_submit (net : network) (s : state) :
  sent (after_submit net s) =
  sent s ++ match parse_isrcs (isrcInput s) with
            | [] => []
            | _ :: _ => [post_isrcs (parse_isrcs (isrcInput s))]
            end.
Proof.
  submit_cases net s.
  destruct Hres as [Hempty | e Hne Hthrows | r data Hne Hnet Hjson Hnull Hbad
                   | r data Hne Hnet Hjson Hnull Hgood];
    cbn [sent].
  - rewrite Hempty. now rewrite app_nil_r.
  - destruct (parse_isrcs (isrcInput s)); [contradiction|reflexivity].
  - destruct (parse_isrcs (isrcInput s)); [contradiction|reflexivity].
  - destruct (parse_isrcs (isrcInput s)); [contradiction|reflexivity].
Qed.



(** X2.  The cleaned list is empty exactly when every code unit of the
    raw input is white space or a line terminator; so [handleSubmit]
    sends a request unless the input is blank. *)
Theorem X2_blank_input (net : network) (s : state) :
  (parse_isrcs (isrcInput s) = [] <->
   forallb is_trimmed_char (isrcInput s) = true)
  /\ (sent (after_submit net s) = sent s <->
      forallb is_trimmed_char (isrcInput s) = true).
Proof.
  split; [apply parse_isrcs_nil_iff|].
  rewrite <- parse_isrcs_nil_iff, sent_after_submit.
  destruct (parse_isrcs (isrcInput s)) as [|x xs].
  - rewrite app_nil_r. split; reflexivity.
  - split; [|discriminate]. intros H.
    apply (f_equal (@length _)) in H. rewrite length_app in H.
    cbn [length] in H. lia.
Qed.

Lemma trimmed_not_ends_with_CR (l : jsstring) :
  trim l = l -> ~ ends_with_CR l.
Proof.
  intros Hfix [l' Hl'].
  destruct (trim_spec l) as (_ & _ & _ & _ & _ & _ & Hlast).
  rewrite Hfix in Hlast. specialize (Hlast l' CR Hl'). discriminate.
Qed.

Lemma join_lf_cons (l x : jsstring) (ls : list jsstring) :
  join_lf (l :: x :: ls) = l ++ LF :: join_lf (x :: ls).
Proof. reflexivity. Qed.

Lemma join_lf_split (l : jsstring) (ls : list jsstring) :
  Forall (fun l => l <> [] /\ trim l = l /\ ~ In LF l) (l :: ls) ->
  line_split (join_lf (l :: ls)) (l :: ls).
Proof.
  revert l. induction ls as [|x ls IH]; intros l Hall.
  - inversion Hall as [|? ? (_ & _ & HLF) _]; subst.
    apply split_last. exact HLF.
  - inversion Hall as [|? ? (_ & Hfix & HLF) Hrest]; subst.
    rewrite join_lf_cons. apply split_at_lf; [exact HLF| |now apply IH].
    now apply trimmed_not_ends_with_CR.
Qed.

Lemma cleaned_lines_of_clean (ls : list jsstring) :
  Forall (fun l => l <> [] /\ trim l = l /\ ~ In LF l) ls ->
  filter (fun line => negb (Nat.eqb (length line) 0)) (map trim ls) = ls.
Proof.
  induction 1 as [|l ls (Hne & Hfix & _) _ IH]; [reflexivity|].
  cbn [map filter]. rewrite Hfix, IH.
  destruct l; [contradiction|reflexivity].
Qed.

Lemma parse_join_clean (ls : list jsstring) :
  Forall (fun l => l <> [] /\ trim l = l /\ ~ In LF l) ls ->
  parse_isrcs (join_lf ls) = ls.
Proof.
  intros Hall. destruct ls as [|l ls]; [reflexivity|].
  rewrite parse_isrcs_cleaned_lines. unfold cleaned_lines.
  rewrite <- (line_split_unique (join_lf_split Hall)).
  now apply cleaned_lines_of_clean.
Qed.

Lemma parse_isrcs_all_clean (raw : jsstring) :
  Forall (fun l => l <> [] /\ trim l = l /\ ~ In LF l) (parse_isrcs raw).
Proof.
  apply Forall_forall. intros l Hl.
  rewrite in_parse_isrcs in Hl. destruct Hl as (Hne & line & Hline & ->).
  split; [exact Hne|]. split; [apply trim_idempotent|].
  intros HLF. apply trim_incl in HLF.
  pose proof (line_split_no_LF (lines_split raw)) as Hall.
  rewrite Forall_forall in Hall. exact (Hall line Hline HLF).
Qed.

(** X3.  Parsing is the inverse of writing a list one item per line: a
    list of items that are not empty, have no white space at their ends
    and no line feed inside comes back as it is, in its order and with
    its repetitions; so cleaning a text that is already clean changes
    nothing. *)
Theorem X3_parse_of_joined_lines :
  (forall ls : list jsstring,
      Forall (fun l => l <> [] /\ trim l = l /\ ~ In LF l) ls ->
      parse_isrcs (join_lf ls) = ls)
  /\ (forall raw : jsstring,
        parse_isrcs (join_lf (parse_isrcs raw)) = parse_isrcs raw).
Proof.
  split.
  - apply parse_join_clean.
  - intros raw. apply parse_join_clean, parse_isrcs_all_clean.
Qed.

(** An ISRC twice, and an item with a space and a tab inside. *)
Lemma X3_parse_of_joined_lines_witness :
  parse_isrcs
    (join_lf [lit "USRC12345678"; lit "USRC12345678";
              lit "US RC" ++ [TAB] ++ lit "1"])
  = [lit "USRC12345678"; lit "USRC12345678";
     lit "US RC" ++ [TAB] ++ lit "1"].
Proof.
  apply (proj1 X3_parse_of_joined_lines).
  repeat constructor; try discriminate;
    try (vm_compute; intuition discriminate).
Defined.

(** ** The number of lines *)

Lemma length_push_front (x : jsstring) (ls : list jsstring) :
  ls <> [] -> length (push_front x ls) = length ls.
Proof. destruct ls; [congruence|reflexivity]. Qed.

Lemma length_lines_bounded (n : nat) (s : jsstring) :
  length s <= n ->
  length (lines_crlf_or_lf s) = S (count_occ N.eq_dec s LF).
Proof.
  revert s. induction n as [|n IH]; intros s Hlen.
  - destruct s; [reflexivity|cbn in Hlen; lia].
  - destruct s as [|c s1]; [reflexivity|]. cbn [length] in Hlen.
    rewrite lines_cons_cases.
    assert (Hpush : c <> LF ->
      length (push_front [c] (lines_crlf_or_lf s1))
      = S (count_occ N.eq_dec (c :: s1) LF)).
    { intros Hc. rewrite length_push_front by apply lines_not_nil.
      rewrite IH by lia. now rewrite count_occ_cons_neq. }
    destruct (N.eqb_spec c LF) as [->|Hlf].
    + cbn [length]. rewrite IH by lia. now rewrite count_occ_cons_eq.
    + destruct (N.eqb_spec c CR) as [->|Hcr]; [|auto].
      destruct s1 as [|d s2]; [auto|].
      destruct (N.eqb_spec d LF) as [->|Hd]; [|auto].
      cbn [length] in Hlen |- *. rewrite IH by lia.
      rewrite count_occ_cons_neq by exact Hlf.
      now rewrite count_occ_cons_eq.
Qed.

(** X4.  A text with [n] line feeds splits into [n + 1] pieces, and so
    gives at most [n + 1] ISRCs. *)
Theorem X4_pieces_and_line_feeds (raw : jsstring) :
  length (split_newlines raw) = S (count_occ N.eq_dec raw LF)
  /\ length (parse_isrcs raw) <= S (count_occ N.eq_dec raw LF).
Proof.
  assert (Hsplit : length (split_newlines raw)
                   = S (count_occ N.eq_dec raw LF)).
  { rewrite split_newlines_lines.
    apply (@length_lines_bounded (length raw)). lia. }
  split; [exact Hsplit|].
  unfold parse_isrcs. rewrite <- Hsplit.
  etransitivity; [apply filter_length_le|]. now rewrite length_map.
Qed.

(** ** One invocation: requests, console, edge cases *)

Lemma invalid_case (net : network) (s : state) :
  parse_isrcs (isrcInput s) = [] ->
  after_submit net s =
  {| isrcInput := isrcInput s; isLoading := false; resultUrl := VNull;
     errorMessage := empty_input_message; successMessage := VNull;
     sent := sent s; console := console s |}.
Proof.
  intros Hempty. submit_cases net s.
  destruct Hres as [_ | e Hne _ | r data Hne _ _ _ _ | r data Hne _ _ _ _];
    [reflexivity|contradiction..].
Qed.

Lemma nullish_case (net : network) (s : state) (r : response) (data : value) :
  parse_isrcs (isrcInput s) <> [] ->
  net (post_isrcs (parse_isrcs (isrcInput s))) = Fulfilled r ->
  json_body r = Fulfilled data ->
  nullish data = true ->
  let e := TypeError_read data (lit (if ok r then "success" else "message")) in
  after_submit net s =
  {| isrcInput := isrcInput s; isLoading := false; resultUrl := VNull;
     errorMessage := js_or (exn_message e) unexpected_error_message;
     successMessage := VNull;
     sent := sent s ++ [post_isrcs (parse_isrcs (isrcInput s))];
     console := console s ++ [e] |}.
Proof.
  intros Hne Hnet Hjson Hnull e. subst e. submit_cases net s.
  destruct Hres as [Hempty | e _ Hthrows | r0 d0 _ Hnet0 Hjson0 Hn0 _
                   | r0 d0 _ Hnet0 Hjson0 Hn0 _].
  - contradiction.
  - destruct Hthrows as [e He | r0 e Hnet0 Hjson0 | r0 d0 Hnet0 Hjson0 Hn0];
      try congruence.
    assert (r0 = r) by congruence. subst r0.
    assert (d0 = data) by congruence. subst d0. reflexivity.
  - congruence.
  - congruence.
Qed.

Lemma input_after_submit (net : network) (s : state) :
  isrcInput (after_submit net s) =
  if success_shown (after_submit net s) then [] else isrcInput s.
Proof.
  submit_cases net s.
  destruct Hres as [Hempty | e Hne Hthrows | r data Hne Hnet Hjson Hnull Hbad
                   | r data Hne Hnet Hjson Hnull Hgood];
    unfold success_shown; cbn [successMessage isrcInput ToBoolean];
    try reflexivity.
  now rewrite js_or_truthy.
Qed.

(** X5.  An invocation of [handleSubmit] sends at most one request,
    whatever the response: none for an empty cleaned list, else one
    [POST] to ["/"] with the JSON content type and the cleaned list of
    the input. *)
Theorem X5_one_request (net : network) (s : state) :
  exists new,
    sent (after_submit net s) = sent s ++ new
    /\ length new = (if Nat.eqb (length (parse_isrcs (isrcInput s))) 0
                     then 0 else 1)
    /\ Forall (fun req =>
                 req_method req = lit "POST"
                 /\ req_url req = lit "/"
                 /\ req_headers req
                    = [(lit "Content-Type", lit "application/json")]
                 /\ req_json req = parse_isrcs (isrcInput s)) new.
Proof.
  rewrite sent_after_submit.
  destruct (parse_isrcs (isrcInput s)) as [|x xs] eqn:E.
  - exists []. repeat split. constructor.
  - eexists. split; [reflexivity|]. split; [reflexivity|].
    constructor; [|constructor]. repeat split.
Qed.

(** X6.  [console.error] is called when the [try] block throws, with the
    exception, and only then: a validation error and a failure that the
    server reports in a parsed body are not logged. *)
Theorem X6_console (net : network) (s : state) :
  let isrcs := parse_isrcs (isrcInput s) in
  let s' := after_submit net s in
  (isrcs = [] -> console s' = console s)
  /\ (forall r data,
        isrcs <> [] ->
        net (post_isrcs isrcs) = Fulfilled r ->
        json_body r = Fulfilled data ->
        nullish data = false ->
        console s' = console s)
  /\ (forall e,
        isrcs <> [] ->
        net (post_isrcs isrcs) = Rejected e
        \/ (exists r, net (post_isrcs isrcs) = Fulfilled r
                      /\ json_body r = Rejected e) ->
        console s' = console s ++ [e]).
Proof.
  intros isrcs s'. subst isrcs s'. split; [|split].
  - intros Hempty. now rewrite (invalid_case net s Hempty).
  - intros r data Hne Hnet Hjson Hnull.
    rewrite (parsed_response_cases net s Hne Hnet Hjson Hnull).
    destruct (ok r && ToBoolean (property data (lit "success"))); reflexivity.
  - intros e Hne Hfail. now rewrite (thrown_case net s Hne Hfail).
Qed.

Lemma X6_console_witness :
  console (after_submit (reply 500 (Fulfilled body_db_down))
             (with_input scenario_input)) = []
  /\ console (after_submit (fun _ => Rejected failed_to_fetch)
                (with_input scenario_input)) = [failed_to_fetch].
Proof.
  split.
  - refine (proj1 (proj2 (X6_console (reply 500 (Fulfilled body_db_down))
                            (with_input scenario_input)))
              {| status := 500; json_body := Fulfilled body_db_down |}
              body_db_down _ eq_refl eq_refl eq_refl).
    vm_compute. discriminate.
  - refine (proj2 (proj2 (X6_console (fun _ => Rejected failed_to_fetch)
                            (with_input scenario_input)))
              failed_to_fetch _ _).
    + vm_compute. discriminate.
    + left. reflexivity.
Defined.

(** X7.  A response whose body is the JSON [null] ends in the error
    branch whatever its status, a 200 too: reading a property of
    [null] throws, so the error of that [TypeError] is shown and
    logged, no success and no url are shown, and the raw input is
    kept. *)
Theorem X7_null_body (net : network) (s : state) (r : response) :
  let isrcs := parse_isrcs (isrcInput s) in
  let s' := after_submit net s in
  isrcs <> [] ->
  net (post_isrcs isrcs) = Fulfilled r ->
  json_body r = Fulfilled VNull ->
  active_outcomes s' = [Error]
  /\ errorMessage s' =
       exn_message
         (TypeError_read VNull (lit (if ok r then "success" else "message")))
  /\ resultUrl s' = VNull
  /\ isrcInput s' = isrcInput s
  /\ console s' =
       console s
       ++ [TypeError_read VNull (lit (if ok r then "success" else "message"))].
Proof.
  intros isrcs s' Hne Hnet Hjson. subst isrcs s'.
  rewrite (nullish_case net s Hne Hnet Hjson eq_refl).
  split; [|repeat split].
  apply active_outcomes_error; reflexivity.
Qed.

Lemma X7_null_body_witness :
  let s' := after_submit (reply 200 (Fulfilled VNull))
              (with_input scenario_input) in
  active_outcomes s' = [Error]
  /\ errorMessage s' =
       VString (lit "Cannot read properties of null (reading 'success')")
  /\ resultUrl s' = VNull
  /\ isrcInput s' = scenario_input
  /\ console s' = [TypeError_read VNull (lit "success")].
Proof.
  refine (@X7_null_body (reply 200 (Fulfilled VNull))
            (with_input scenario_input)
            {| status := 200; json_body := Fulfilled VNull |} _ eq_refl eq_refl).
  vm_compute. discriminate.
Defined.

(** X8.  Submitting again without typing: after a success the input is
    empty, so the second invocation sends nothing and shows the
    validation error; after any other outcome the input is as it was,
    so the second invocation sends the same request once more. *)
Theorem X8_resubmit (net1 net2 : network) (s : state) :
  let s1 := after_submit net1 s in
  let s2 := after_submit net2 s1 in
  (success_shown s1 = true ->
     sent s2 = sent s1
     /\ errorMessage s2 = VString (lit "Please enter at least one ISRC.")
     /\ active_outcomes s2 = [Error])
  /\ (success_shown s1 = false ->
      exists new, sent s1 = sent s ++ new /\ sent s2 = sent s ++ new ++ new).
Proof.
  intros s1 s2. subst s1 s2. split.
  - intros Hshown.
    pose proof (input_after_submit net1 s) as Hin. rewrite Hshown in Hin.
    assert (Hempty : parse_isrcs (isrcInput (after_submit net1 s)) = [])
      by (rewrite Hin; reflexivity).
    rewrite (invalid_case net2 _ Hempty). cbn [sent errorMessage].
    split; [reflexivity|]. split; [reflexivity|].
    apply active_outcomes_error; reflexivity.
  - intros Hshown.
    pose proof (input_after_submit net1 s) as Hin. rewrite Hshown in Hin.
    eexists. split; [apply sent_after_submit|].
    rewrite sent_after_submit, Hin, sent_after_submit.
    now rewrite app_assoc.
Qed.

Lemma X8_resubmit_witness :
  sent (after_submit (reply 200 (Fulfilled body_42))
          (after_submit (reply 200 (Fulfilled body_42))
             (with_input scenario_input)))
  = [post_isrcs [lit "USRC12345678"; lit "USRC87654321"]]
  /\ sent (after_submit (reply 200 (Fulfilled body_42))
             (after_submit (reply 500 (Fulfilled body_db_down))
                (with_input scenario_input)))
     = [post_isrcs [lit "USRC12345678"; lit "USRC87654321"];
        post_isrcs [lit "USRC12345678"; lit "USRC87654321"]].
Proof.
  split.
  - pose proof (proj1 (X8_resubmit (reply 200 (Fulfilled body_42))
                         (reply 200 (Fulfilled body_42))
                         (with_input scenario_input))) as H.
    cbv zeta in H. destruct H as (Hsent & _); [vm_compute; reflexivity|].
    rewrite Hsent. vm_compute. reflexivity.
  - pose proof (proj2 (X8_resubmit (reply 500 (Fulfilled body_db_down))
                         (reply 200 (Fulfilled body_42))
                         (with_input scenario_input))) as H.
    cbv zeta in H. destruct H as (new & H1 & H2); [vm_compute; reflexivity|].
    rewrite H2. cbn [with_input sent app] in H1 |- *.
    rewrite <- H1. vm_compute. reflexivity.
Defined.

(** ** Sessions *)

(** X9.  Resumed at its three [await]s, an invocation does what
    [handleSubmit] does as a whole: from a page that is not loading, a
    submit followed by the settling of the tick, of the fetch and of
    the body ends in the state in which [handleSubmit] ends, with no
    invocation left. *)
Theorem X9_resumptions_compose (net : network) (s : state) :
  isLoading s = false ->
  run {| component := s; waiting := [] |} (Submit :: settling_events net s)
  = Some {| component := after_submit net s; waiting := [] |}.
Proof.
  intros Hidle.
  destruct (machine_runs_handleSubmit net s Hidle) as (o & Ho & Hrun).
  cbv zeta in Hrun. unfold settling_events.
  destruct (Nat.eqb (length (parse_isrcs (isrcInput s))) 0) eqn:Hlen.
  - exact Hrun.
  - assert (Hne : parse_isrcs (isrcInput s) <> []).
    { intros E. rewrite E in Hlen. discriminate. }
    rewrite <- (Ho Hne). destruct o; exact Hrun.
Qed.

Lemma X9_resumptions_compose_witness :
  run {| component := with_input scenario_input; waiting := [] |}
    (Submit :: settling_events (reply 500 (Fulfilled body_partial))
                 (with_input scenario_input))
  = Some {| component := after_submit (reply 500 (Fulfilled body_partial))
                           (with_input scenario_input);
            waiting := [] |}.
Proof.
  apply X9_resumptions_compose. reflexivity.
Defined.

Lemma nth_error_nil_none {A} (i : nat) : nth_error (@nil A) i = None.
Proof. destruct i; reflexivity. Qed.

(** X10.  After any sequence of events the page is loading exactly
    while an invocation is suspended.  While it is loading, submitting
    and typing are refused, and loading alone is shown, without a
    link; while it is not, no promise is left to settle, so only the
    user changes the page. *)
Theorem X10_single_flight (evs : list event) (m : machine) :
  run initial_machine evs = Some m ->
  (isLoading (component m) = true <-> waiting m <> [])
  /\ (isLoading (component m) = true ->
      step m Submit = None
      /\ (forall text, step m (TypeText text) = None)
      /\ active_outcomes (component m) = [Loading]
      /\ url_shown (component m) = false)
  /\ (isLoading (component m) = false ->
      forall i o,
        step m (TickDone i) = None
        /\ step m (FetchSettled i o) = None
        /\ step m (JsonSettled i) = None).
Proof.
  intros Hrun.
  pose proof (@run_preserves evs _ _ initial_machine_inv Hrun) as Hinv.
  unfold machine_inv in Hinv.
  destruct (waiting m) as [|k [|k' ws]] eqn:Hw; [| |contradiction].
  - destruct Hinv as [Hl _]. split; [|split].
    + rewrite Hl. split; [discriminate|congruence].
    + rewrite Hl. discriminate.
    + intros _ i o. cbn [step]. rewrite Hw, nth_error_nil_none.
      repeat split.
  - pose proof Hinv as (Hl & Hu & He & Hs). split; [|split].
    + rewrite Hl. split; [discriminate|reflexivity].
    + intros _. cbn [step]. rewrite Hl. repeat split.
      * now apply loading_one_outcome.
      * unfold url_shown. now rewrite Hu.
    + rewrite Hl. discriminate.
Qed.

Lemma X10_single_flight_witness :
  step in_flight Submit = None
  /\ (forall text, step in_flight (TypeText text) = None)
  /\ active_outcomes (component in_flight) = [Loading]
  /\ url_shown (component in_flight) = false.
Proof.
  refine (proj1 (proj2 (@X10_single_flight
            [TypeText scenario_input; Submit; TickDone 0] in_flight _)) _).
  - vm_compute. reflexivity.
  - reflexivity.
Defined.

Lemma component_resume (m : machine) (i : nat) (rest : M (option suspension)) :
  component (resume m i rest) = snd (rest (component m)).
Proof.
  unfold resume. destruct (rest (component m)) as [[next|e] s']; reflexivity.
Qed.

Lemma link_after_tick (s : state) :
  loading_state s -> link_has_message (snd (resume_after_tick s)).
Proof.
  destruct s as [input loading url err succ reqs errs].
  intros (Hl & Hu & He & Hs). cbn in Hl, Hu, He, Hs. subst.
  unfold link_has_message, url_shown. unfold_resume.
  destruct (Nat.eqb (length (parse_isrcs input)) 0); discriminate.
Qed.

Lemma link_after_fetch (o : settled response) (s : state) :
  loading_state s -> link_has_message (snd (resume_after_fetch o s)).
Proof.
  destruct s as [input loading url err succ reqs errs].
  intros (Hl & Hu & He & Hs). cbn in Hl, Hu, He, Hs. subst.
  unfold link_has_message, url_shown. unfold_resume.
  destruct o; discriminate.
Qed.

Lemma link_after_json (r : response) (s : state) :
  loading_state s -> link_has_message (snd (resume_after_json r s)).
Proof.
  destruct s as [input loading url err succ reqs errs].
  intros (Hl & Hu & He & Hs). cbn in Hl, Hu, He, Hs. subst.
  unfold link_has_message, url_shown, success_shown, error_shown.
  unfold_resume. destruct (json_body r) as [data|e]; [|discriminate].
  destruct (nullish data).
  - destruct (ok r); discriminate.
  - destruct (ok r); cbn [negb]; cbv beta iota zeta.
    + destruct (ToBoolean (property data (lit "success")));
        cbn [negb]; cbv beta iota zeta.
      * intros _. left. apply js_or_truthy. reflexivity.
      * destruct (ToBoolean (property data (lit "url")));
          intros _; right; apply js_or_truthy; reflexivity.
    + destruct (ToBoolean (property data (lit "url")));
        intros _; right; apply js_or_truthy; reflexivity.
Qed.

Lemma step_keeps_link (m m' : machine) (ev : event) :
  machine_inv m -> link_has_message (component m) ->
  step m ev = Some m' -> link_has_message (component m').
Proof.
  intros Hinv Hlink Hstep.
  destruct ev as [text | | i | i o | i]; cbn [step] in Hstep.
  - destruct (isLoading (component m)); [discriminate|].
    injection Hstep as <-. exact Hlink.
  - destruct (isLoading (component m)); [discriminate|].
    injection Hstep as <-. unfold link_has_message, url_shown.
    cbn. discriminate.
  - destruct (nth_error (waiting m) i) as [[| |r]|] eqn:Hk; try discriminate.
    injection Hstep as <-.
    destruct (waiting_index m i Hinv Hk) as [-> Hload].
    rewrite component_resume. now apply link_after_tick.
  - destruct (nth_error (waiting m) i) as [[| |r]|] eqn:Hk; try discriminate.
    injection Hstep as <-.
    destruct (waiting_index m i Hinv Hk) as [-> Hload].
    rewrite component_resume. now apply link_after_fetch.
  - destruct (nth_error (waiting m) i) as [[| |r]|] eqn:Hk; try discriminate.
    injection Hstep as <-.
    destruct (waiting_index m i Hinv Hk) as [-> Hload].
    rewrite component_resume. now apply link_after_json.
Qed.

Lemma run_keeps_link (evs : list event) (m m' : machine) :
  machine_inv m -> link_has_message (component m) ->
  run m evs = Some m' -> link_has_message (component m').
Proof.
  revert m. induction evs as [|ev evs IH]; intros m Hinv Hlink Hrun;
    cbn in Hrun.
  - now injection Hrun as <-.
  - destruct (step m ev) as [m1|] eqn:Hstep; [|discriminate].
    apply (IH m1); [eapply step_preserves; eauto| |exact Hrun].
    eapply step_keeps_link; eauto.
Qed.

(** X11.  After any sequence of events, the link to the library is
    never shown alone: when the result url is shown, the success
    message or the error message is shown as well. *)
Theorem X11_link_with_message (evs : list event) (m : machine) :
  run initial_machine evs = Some m ->
  url_shown (component m) = true ->
  success_shown (component m) = true \/ error_shown (component m) = true.
Proof.
  intros Hrun.
  apply (@run_keeps_link evs initial_machine m initial_machine_inv);
    [|exact Hrun].
  unfold link_has_message, url_shown. cbn. discriminate.
Qed.

Lemma X11_link_with_message_witness :
  success_shown (component session_end) = true
  \/ error_shown (component session_end) = true.
Proof.
  apply (@X11_link_with_message session session_end).
  - vm_compute. reflexivity.
  - vm_compute. reflexivity.
Defined.

(** The invocations that have not sent their request yet. *)
Definition before_fetch (m : machine) : nat :=
  match waiting m with
  | [AwaitingTick] => 1
  | _ => 0
  end.

Lemma sent_after_tick (s : state) :
  exists next s',
    resume_after_tick s = (Normal next, s')
    /\ next <> Some AwaitingTick
    /\ length (sent s') <= S (length (sent s)).
Proof.
  destruct s as [input loading url err succ reqs errs]. unfold_resume.
  destruct (Nat.eqb (length (parse_isrcs input)) 0).
  - eexists _, _. split; [reflexivity|]. split; [discriminate|]. cbn. lia.
  - eexists _, _. split; [reflexivity|]. split; [discriminate|].
    cbn. rewrite length_app. cbn. lia.
Qed.

Lemma sent_after_fetch (o : settled response) (s : state) :
  exists next s',
    resume_after_fetch o s = (Normal next, s')
    /\ next <> Some AwaitingTick
    /\ sent s' = sent s.
Proof.
  destruct s as [input loading url err succ reqs errs]. unfold_resume.
  destruct o; eexists _, _; (split; [reflexivity|]); split;
    (discriminate || reflexivity).
Qed.

Lemma sent_after_json (r : response) (s : state) :
  exists s',
    resume_after_json r s = (Normal None, s') /\ sent s' = sent s.
Proof.
  destruct s as [input loading url err succ reqs errs]. unfold_resume.
  destruct (json_body r) as [data|e]; [|eexists; split; reflexivity].
  destruct (nullish data); destruct (ok r); cbn [negb]; cbv beta iota zeta;
    try (eexists; split; reflexivity);
    destruct (ToBoolean (property data (lit "success")));
    cbn [negb]; cbv beta iota zeta;
    try (eexists; split; reflexivity);
    destruct (ToBoolean (property data (lit "url")));
    eexists; split; reflexivity.
Qed.

Lemma step_counts_requests (m m' : machine) (ev : event) :
  machine_inv m -> step m ev = Some m' ->
  length (sent (component m')) + before_fetch m'
  <= length (sent (component m)) + before_fetch m
     + (if is_submit ev then 1 else 0).
Proof.
  intros Hinv Hstep.
  destruct ev as [text | | i | i o | i]; cbn [step is_submit] in Hstep |- *.
  - destruct (isLoading (component m)); [discriminate|].
    injection Hstep as <-. unfold before_fetch. cbn. lia.
  - destruct (isLoading (component m)) eqn:Hl; [discriminate|].
    injection Hstep as <-.
    rewrite (not_loading_idle m Hinv Hl). unfold before_fetch.
    cbn [component waiting app].
    rewrite (not_loading_idle m Hinv Hl). cbn. lia.
  - destruct (nth_error (waiting m) i) as [[| |r]|] eqn:Hk; try discriminate.
    injection Hstep as <-.
    destruct (waiting_index m i Hinv Hk) as [-> _].
    destruct (sent_after_tick (component m)) as (next & s' & Hrun & Hnext & Hsent).
    unfold resume, before_fetch. rewrite Hrun. cbn [component waiting].
    unfold machine_inv in Hinv.
    destruct (waiting m) as [|k0 [|k1 ws]]; [discriminate| |contradiction].
    injection Hk as ->. cbn [replace_nth].
    destruct next as [[| |r]|]; [congruence|lia..].
  - destruct (nth_error (waiting m) i) as [[| |r]|] eqn:Hk; try discriminate.
    injection Hstep as <-.
    destruct (waiting_index m i Hinv Hk) as [-> _].
    destruct (sent_after_fetch o (component m))
      as (next & s' & Hrun & Hnext & Hsent).
    unfold resume, before_fetch. rewrite Hrun. cbn [component waiting].
    unfold machine_inv in Hinv.
    destruct (waiting m) as [|k0 [|k1 ws]]; [discriminate| |contradiction].
    injection Hk as ->. cbn [replace_nth]. rewrite Hsent.
    destruct next as [[| |r]|]; [congruence|lia..].
  - destruct (nth_error (waiting m) i) as [[| |r]|] eqn:Hk; try discriminate.
    injection Hstep as <-.
    destruct (waiting_index m i Hinv Hk) as [-> _].
    destruct (sent_after_json r (component m)) as (s' & Hrun & Hsent).
    unfold resume, before_fetch. rewrite Hrun. cbn [component waiting].
    unfold machine_inv in Hinv.
    destruct (waiting m) as [|k0 [|k1 ws]]; [discriminate| |contradiction].
    injection Hk as ->. cbn [replace_nth]. rewrite Hsent. lia.
Qed.

Lemma run_counts_requests (evs : list event) (m m' : machine) :
  machine_inv m -> run m evs = Some m' ->
  length (sent (component m')) + before_fetch m'
  <= length (sent (component m)) + before_fetch m
     + length (filter is_submit evs).
Proof.
  revert m. induction evs as [|ev evs IH]; intros m Hinv Hrun; cbn in Hrun.
  - injection Hrun as <-. cbn. lia.
  - destruct (step m ev) as [m1|] eqn:Hstep; [|discriminate].
    pose proof (step_counts_requests m ev Hinv Hstep) as H1.
    pose proof (IH m1 (step_preserves m ev Hinv Hstep) Hrun) as H2.
    cbn [filter]. destruct (is_submit ev); cbn [length]; lia.
Qed.

(** X12.  After any sequence of events, the page has sent at most as
    many requests as the form was submitted: no request without a
    submit, and no second request for one submit. *)
Theorem X12_requests_per_submit (evs : list event) (m : machine) :
  run initial_machine evs = Some m ->
  length (sent (component m)) <= length (filter is_submit evs).
Proof.
  intros Hrun.
  pose proof (@run_counts_requests evs _ _ initial_machine_inv Hrun) as H.
  cbn in H. lia.
Qed.

Lemma X12_requests_per_submit_witness :
  length (sent (component session_end)) <= 2.
Proof.
  apply (@X12_requests_per_submit session session_end).
  vm_compute. reflexivity.
Defined.

(** ** The body of the request *)

Example stringify_scenario :
  JSON_stringify_strings [lit "USRC12345678"; lit "USRC87654321"]
  = [0x5B%N; QUOTE] ++ lit "USRC12345678" ++ [QUOTE; 0x2C%N; QUOTE]
    ++ lit "USRC87654321" ++ [QUOTE; 0x5D%N].
Proof. vm_compute. reflexivity. Qed.

Example stringify_escapes :
  JSON_stringify_strings [[0x61; TAB; QUOTE; 0xD800; 0x1F; 0xD83D; 0xDE00]%N]
  = [0x5B%N; QUOTE] ++ lit "a\t\" ++ [QUOTE] ++ lit "\ud800\u001f"
    ++ [0xD83D; 0xDE00; QUOTE; 0x5D]%N.
Proof. vm_compute. reflexivity. Qed.

Lemma hex_value_digit (d : N) :
  (d < 16)%N -> hex_value (hex_digit d) = Some d.
Proof.
  intros Hd. unfold hex_value, hex_digit.
  destruct (N.ltb_spec d 10) as [Hlt|Hge].
  - replace ((0x30 <=? 0x30 + d)%N && (0x30 + d <=? 0x39)%N) with true.
    + f_equal. lia.
    + symmetry. apply andb_true_iff. split; apply N.leb_le; lia.
  - replace ((0x30 <=? 0x61 + (d - 10))%N && (0x61 + (d - 10) <=? 0x39)%N)
      with false.
    + replace ((0x61 <=? 0x61 + (d - 10))%N && (0x61 + (d - 10) <=? 0x66)%N)
        with true.
      * f_equal. lia.
      * symmetry. apply andb_true_iff. split; apply N.leb_le; lia.
    + symmetry. apply andb_false_iff. right. apply N.leb_gt. lia.
Qed.

Lemma hex_digits_value (c : code_unit) :
  (c < 0x10000)%N ->
  ((((c / 0x1000) mod 16 * 16 + (c / 0x100) mod 16) * 16
    + (c / 0x10) mod 16) * 16 + c mod 16)%N = c.
Proof.
  intros Hc.
  assert (E2 : (c / 0x100 = c / 16 / 16)%N) by now rewrite N.Div0.div_div.
  assert (E3 : (c / 0x1000 = c / 16 / 16 / 16)%N)
    by now rewrite !N.Div0.div_div.
  change 0x10%N with 16%N. rewrite E2, E3.
  pose proof (N.div_mod c 16 ltac:(discriminate)) as H0.
  pose proof (N.div_mod (c / 16) 16 ltac:(discriminate)) as H1.
  pose proof (N.div_mod (c / 16 / 16) 16 ltac:(discriminate)) as H2.
  assert (H3 : ((c / 16 / 16 / 16) mod 16 = c / 16 / 16 / 16)%N).
  { apply N.mod_small. rewrite <- E3.
    apply N.Div0.div_lt_upper_bound. lia. }
  rewrite H3. lia.
Qed.

Lemma unquote_UnicodeEscape (c : code_unit) (x : jsstring) :
  (c < 0x10000)%N ->
  unquote_units (UnicodeEscape c ++ x) = read_more c (unquote_units x).
Proof.
  intros Hc. unfold UnicodeEscape. cbn [app unquote_units].
  change (BACKSLASH =? QUOTE)%N with false.
  change (BACKSLASH =? BACKSLASH)%N with true.
  change (0x75 =? 0x75)%N with true. cbv beta iota.
  rewrite !hex_value_digit by (apply N.mod_lt; discriminate).
  now rewrite hex_digits_value.
Qed.

Lemma unquote_raw (c : code_unit) (x : jsstring) :
  c <> QUOTE -> c <> BACKSLASH ->
  unquote_units (c :: x) = read_more c (unquote_units x).
Proof.
  intros Hq Hb. cbn [unquote_units].
  destruct (N.eqb_spec c QUOTE); [contradiction|].
  destruct (N.eqb_spec c BACKSLASH); [contradiction|]. reflexivity.
Qed.

Lemma trailing_surrogate_range (c : code_unit) :
  is_trailing_surrogate c = true -> (0xDC00 <= c <= 0xDFFF)%N.
Proof.
  unfold is_trailing_surrogate. rewrite andb_true_iff, !N.leb_le. tauto.
Qed.

Lemma leading_surrogate_range (c : code_unit) :
  is_leading_surrogate c = true -> (0xD800 <= c <= 0xDBFF)%N.
Proof.
  unfold is_leading_surrogate. rewrite andb_true_iff, !N.leb_le. tauto.
Qed.

Lemma unquote_quote_unit (c : code_unit) (x : jsstring) :
  is_leading_surrogate c = false ->
  unquote_units (quote_unit c ++ x) = read_more c (unquote_units x).
Proof.
  intros Hlead. unfold quote_unit.
  destruct (N.eqb_spec c 0x08) as [->|H1]; [reflexivity|].
  destruct (N.eqb_spec c 0x09) as [->|H2]; [reflexivity|].
  destruct (N.eqb_spec c 0x0A) as [->|H3]; [reflexivity|].
  destruct (N.eqb_spec c 0x0C) as [->|H4]; [reflexivity|].
  destruct (N.eqb_spec c 0x0D) as [->|H5]; [reflexivity|].
  destruct (N.eqb_spec c QUOTE) as [->|H6]; [reflexivity|].
  destruct (N.eqb_spec c BACKSLASH) as [->|H7]; [reflexivity|].
  destruct ((c <? 0x20)%N || is_trailing_surrogate c) eqn:Hesc.
  - apply unquote_UnicodeEscape.
    apply orb_true_iff in Hesc. destruct Hesc as [Hlt|Htr].
    + apply N.ltb_lt in Hlt. lia.
    + apply trailing_surrogate_range in Htr. lia.
  - cbn [app]. now apply unquote_raw.
Qed.

(** Reading back what [QuoteJSONString] wrote gives the string. *)
Lemma unquote_quote_bounded (n : nat) (s tail : jsstring) :
  length s <= n ->
  unquote_units (quote_units s ++ QUOTE :: tail) = Some (s, tail).
Proof.
  revert s. induction n as [|n IH]; intros s Hlen.
  - destruct s; [|cbn in Hlen; lia]. reflexivity.
  - destruct s as [|c rest]; [reflexivity|]. cbn [length] in Hlen.
    cbn [quote_units].
    destruct (is_leading_surrogate c) eqn:Hlead.
    + pose proof (leading_surrogate_range c Hlead) as Hrange.
      destruct rest as [|d rest'].
      * rewrite unquote_UnicodeEscape by lia. reflexivity.
      * destruct (is_trailing_surrogate d) eqn:Htrail.
        -- pose proof (trailing_surrogate_range d Htrail) as Hd.
           cbn [app].
           rewrite unquote_raw by (unfold QUOTE, BACKSLASH; lia).
           rewrite unquote_raw by (unfold QUOTE, BACKSLASH; lia).
           cbn [length] in Hlen. rewrite IH by lia. reflexivity.
        -- rewrite <- app_assoc, unquote_UnicodeEscape by lia.
           rewrite IH by lia. reflexivity.
    + rewrite <- app_assoc, unquote_quote_unit by exact Hlead.
      rewrite IH by lia. reflexivity.
Qed.

Lemma unquote_quote (s tail : jsstring) :
  unquote_units (quote_units s ++ QUOTE :: tail) = Some (s, tail).
Proof. apply (@unquote_quote_bounded (length s)). lia. Qed.

Lemma join_comma_cons (x : jsstring) (l : list jsstring) :
  join_comma (map QuoteJSONString (x :: l)) ++ [0x5D%N]
  = QUOTE :: quote_units x ++ QUOTE :: after_element l.
Proof.
  destruct l as [|y l]; cbn [map join_comma after_element];
    unfold QuoteJSONString; cbn [app]; rewrite <- !app_assoc; reflexivity.
Qed.

Lemma join_comma_injective (l1 l2 : list jsstring) :
  join_comma (map QuoteJSONString l1) ++ [0x5D%N]
  = join_comma (map QuoteJSONString l2) ++ [0x5D%N] ->
  l1 = l2.
Proof.
  revert l2. induction l1 as [|x1 l1 IH]; intros l2 H.
  - destruct l2 as [|x2 l2]; [reflexivity|].
    rewrite join_comma_cons in H. discriminate H.
  - destruct l2 as [|x2 l2].
    + rewrite join_comma_cons in H. discriminate H.
    + rewrite !join_comma_cons in H. injection H as H.
      pose proof (unquote_quote x1 (after_element l1)) as H1.
      rewrite H, unquote_quote in H1. injection H1 as -> Hafter.
      f_equal. destruct l1 as [|y1 l1], l2 as [|y2 l2];
        cbn [after_element] in Hafter; try discriminate Hafter.
      * reflexivity.
      * apply IH. now injection Hafter.
Qed.









(** X13.  The body of the request determines the cleaned list: two
    lists of strings with the same [JSON.stringify] text are the same
    list, whatever quotation marks, backslashes, commas or brackets
    the strings contain. *)
Theorem X13_body_determines_list (l1 l2 : list jsstring) :
  request_body (post_isrcs l1) = request_body (post_isrcs l2) -> l1 = l2.
Proof.
  unfold request_body, JSON_stringify_strings. cbn [req_json post_isrcs].
  intros H. injection H as H. now apply join_comma_injective.
Qed.

Lemma X13_body_determines_list_witness :
  [lit "a,b"] = [lit "a,b"]
  /\ request_body (post_isrcs [lit "a,b"])
     <> request_body (post_isrcs [lit "a"; lit "b"]).
Proof.
  split.
  - apply X13_body_determines_list. reflexivity.
  - vm_compute. discriminate.
Defined.


(** ** Trimming, and bodies without the fields *)

(** X15.  [trim] takes white space and line terminators off the two
    ends and nothing else: what it takes off is white, what it leaves
    begins and ends with a code unit that is not, the inside is kept as
    it is, and trimming twice is trimming once. *)
Theorem X15_trim_ends_only (s : jsstring) :
  (exists pre post,
      s = pre ++ trim s ++ post
      /\ forallb is_trimmed_char pre = true
      /\ forallb is_trimmed_char post = true)
  /\ (forall c t, trim s = c :: t -> is_trimmed_char c = false)
  /\ (forall t c, trim s = t ++ [c] -> is_trimmed_char c = false)
  /\ trim (trim s) = trim s.
Proof.
  destruct (trim_spec s) as (pre & post & Hs & Hpre & Hpost & Hhead & Hlast).
  split; [exists pre, post; auto|].
  split; [exact Hhead|]. split; [exact Hlast|]. apply trim_idempotent.
Qed.

Lemma X15_trim_ends_only_witness :
  trim (trim ([SP; TAB] ++ lit "US RC1" ++ [CR; 0xA0%N; 0xFEFF%N]))
  = trim ([SP; TAB] ++ lit "US RC1" ++ [CR; 0xA0%N; 0xFEFF%N]).
Proof.
  exact (proj2 (proj2 (proj2 (X15_trim_ends_only
           ([SP; TAB] ++ lit "US RC1" ++ [CR; 0xA0%N; 0xFEFF%N]))))).
Defined.

(** X16.  A response whose body parses to something without the
    fields ends in the failure branch, with a 2xx status too.  When
    the body is a boolean, a number, a string or an array, the message
    made from the status code is shown and no url; when it is an
    object without a [success] of its own, its message or else the
    message made from the status code is shown. *)
Theorem X16_body_without_fields (net : network) (s : state) (r : response)
    (data : value) :
  let isrcs := parse_isrcs (isrcInput s) in
  let s' := after_submit net s in
  isrcs <> [] ->
  net (post_isrcs isrcs) = Fulfilled r ->
  json_body r = Fulfilled data ->
  nullish data = false ->
  (is_object data = false ->
     errorMessage s' =
       VString (lit "Request failed with status "
                ++ number_to_string (status r))
     /\ resultUrl s' = VNull
     /\ active_outcomes s' = [Error]
     /\ isrcInput s' = isrcInput s)
  /\ (forall props,
        data = VObject props ->
        own_property props (lit "success") = None ->
        errorMessage s' =
          (if ToBoolean (property data (lit "message"))
           then property data (lit "message")
           else VString (lit "Request failed with status "
                         ++ number_to_string (status r)))
        /\ active_outcomes s' = [Error]
        /\ isrcInput s' = isrcInput s).
Proof.
  intros isrcs s' Hne Hnet Hjson Hnull. subst isrcs s'.
  rewrite (parsed_response_cases net s Hne Hnet Hjson Hnull). split.
  - intros Hobj.
    assert (Hprop : forall k, property data k = VUndefined)
      by (intros k; destruct data; try reflexivity; discriminate).
    rewrite !Hprop. cbn [ToBoolean]. rewrite andb_false_r.
    repeat split.
  - intros props -> Hown.
    assert (Hsucc : property (VObject props) (lit "success") = VUndefined)
      by (cbn [property]; now rewrite Hown).
    rewrite Hsucc. cbn [ToBoolean]. rewrite andb_false_r.
    split; [reflexivity|]. split; [|reflexivity].
    apply active_outcomes_error; try reflexivity.
    apply js_or_truthy. reflexivity.
Qed.

Lemma X16_body_without_fields_witness :
  errorMessage (after_submit (reply 200 (Fulfilled (VArray [])))
                  (with_input scenario_input))
  = VString (lit "Request failed with status 200")
  /\ errorMessage (after_submit (reply 200 (Fulfilled (VObject [])))
                     (with_input scenario_input))
     = VString (lit "Request failed with status 200")
  /\ errorMessage (after_submit (reply 200 (Fulfilled body_only_message))
                     (with_input scenario_input))
     = VString (lit "quota exceeded").
Proof.
  split; [|split].
  - refine (proj1 (proj1 (@X16_body_without_fields
      (reply 200 (Fulfilled (VArray []))) (with_input scenario_input)
      {| status := 200; json_body := Fulfilled (VArray []) |} (VArray [])
      _ eq_refl eq_refl eq_refl) eq_refl)).
    vm_compute. discriminate.
  - refine (proj1 (proj2 (@X16_body_without_fields
      (reply 200 (Fulfilled (VObject []))) (with_input scenario_input)
      {| status := 200; json_body := Fulfilled (VObject []) |} (VObject [])
      _ eq_refl eq_refl eq_refl) [] eq_refl eq_refl)).
    vm_compute. discriminate.
  - refine (proj1 (proj2 (@X16_body_without_fields
      (reply 200 (Fulfilled body_only_message)) (with_input scenario_input)
      {| status := 200; json_body := Fulfilled body_only_message |}
      body_only_message _ eq_refl eq_refl eq_refl) _ eq_refl eq_refl)).
    vm_compute. discriminate.
Defined.
